(** * bot.py: cooldown tracker, message relay and nickname batch

    A shallow embedding of [bot.py] (a discord.py bot with the two slash
    commands [sendms] and [changenick]) and the properties of its
    specification that can be stated over it.

    Modelling choices, all visible in the definitions below:
    - a Python [str] is the list of its code points ([pystr]), so that
      [m[:2000]] is [firstn 2000] and [str.strip] uses Python's own
      whitespace table;
    - the event-loop clock returns a Python float; a reading is a rational
      [Q] and subtraction is exact.  Every concrete clock reading used
      below is a small dyadic number on which binary64 arithmetic is exact
      as well;
    - the module-level dicts [user_last] and [guild_last] are [gmap Z Q];
    - every call into discord.py is logged in a chronological [trace]; the
      outcome of a call that the handlers guard with [try] comes from an
      oracle of the environment ([Env]);
    - a coroutine that the handlers do not guard ([response.send_message],
      [followup.send], [response.defer], [asyncio.sleep]) is taken to
      return normally, and so is the success follow-up of [sendms], which
      sits inside its [try];
    - because the clock arithmetic is exact here and rounded in the code,
      what is stated about the value of a cooldown check is stated either
      at readings on which binary64 subtraction is exact or as a
      comparison, which rounding preserves. *)

From Stdlib Require Import ZArith QArith Qround List String Ascii.
From Stdlib Require Import DecimalString Permutation Lia Lqa.
From stdpp Require Import gmap strings.
Import ListNotations.

Close Scope Q_scope.
Local Open Scope Z_scope.

(** ** Python values *)

(** A [str] as the sequence of its code points. *)
Abbreviation pystr := (list N).

(** A literal whose characters are all ASCII. *)
Definition lit (s : string) : pystr :=
  List.map N_of_ascii (list_ascii_of_string s).

(** [str(n)] for a Python int. *)
Definition str_of_int (n : Z) : pystr :=
  lit (NilZero.string_of_int (Z.to_int n)).

(** [str.isspace] on one code point: CPython's [_PyUnicode_IsWhitespace]. *)
Definition isspace (c : N) : bool :=
  ((9 <=? c) && (c <=? 13) || (28 <=? c) && (c <=? 32)
   || (c =? 133) || (c =? 160) || (c =? 5760)
   || (8192 <=? c) && (c <=? 8202)
   || (c =? 8232) || (c =? 8233) || (c =? 8239) || (c =? 8287)
   || (c =? 12288))%N.

Fixpoint lstrip (s : pystr) : pystr :=
  match s with
  | c :: s' => if isspace c then lstrip s' else s
  | [] => []
  end.

Definition rstrip (s : pystr) : pystr := rev (lstrip (rev s)).

(** [s.strip()] with no argument. *)
Definition strip (s : pystr) : pystr := rstrip (lstrip s).

(** Truth value of a [str]: non-empty. *)
Definition str_truthy (s : pystr) : bool :=
  match s with [] => false | _ => true end.

(** Truth value of an [Optional[int]]: neither [None] nor [0]. *)
Definition optint_truthy (o : option Z) : bool :=
  match o with Some n => negb (n =? 0) | None => false end.

(** [sep.join(parts)]. *)
Fixpoint join (sep : pystr) (parts : list pystr) : pystr :=
  match parts with
  | [] => []
  | [p] => p
  | p :: rest => p ++ sep ++ join sep rest
  end.

(** [int(x)] on a float: truncation toward zero. *)
Definition py_int (x : Q) : Z := Z.quot (Qnum x) (Z.pos (Qden x)).

(** [x > 0] on a float. *)
Definition Qpositive (x : Q) : bool := negb (Qle_bool x 0).

(** ** Cooldown tracker (bot.py, lines 42-57) *)

Definition USER_COOLDOWN_SECS : Z := 20.
Definition GUILD_COOLDOWN_SECS : Z := 5.

(** [is_on_user_cooldown]; [now] is the value of
    [asyncio.get_event_loop().time()] at the call. *)
Definition is_on_user_cooldown (user_last : gmap Z Q) (now : Q) (user_id : Z)
  : option Z :=
  let last := default 0%Q (user_last !! user_id) in
  let remaining := (inject_Z USER_COOLDOWN_SECS - (now - last))%Q in
  if Qpositive remaining then Some (py_int remaining) else None.

Definition is_on_guild_cooldown (guild_last : gmap Z Q) (now : Q) (guild_id : Z)
  : option Z :=
  let last := default 0%Q (guild_last !! guild_id) in
  let remaining := (inject_Z GUILD_COOLDOWN_SECS - (now - last))%Q in
  if Qpositive remaining then Some (py_int remaining) else None.

(** ** The platform as the handlers see it *)

(** The two exception classes the handlers tell apart: [discord.Forbidden]
    and any other [Exception], which carries its [str(e)]. *)
Inductive exn :=
| Forbidden
| OtherError (detail : pystr).

(** What a guarded platform call did. *)
Inductive outcome :=
| Returned
| Raised (e : exn).

(** [discord.Member], with the attributes the handlers read.  [m_str] is
    [str(m)]; [manage_nicknames] is [guild_permissions.manage_nicknames].
    A handler reads the attributes of the object it was handed: they stay
    as they are for the length of one invocation. *)
Record Member := {
  m_id : Z;
  m_bot : bool;
  display_name : pystr;
  top_role_position : Z;
  manage_nicknames : bool;
  m_str : pystr
}.

Record Guild := {
  owner_id : Z;
  members : list Member
}.

Record Interaction := {
  user : Member;
  guild_id : option Z;
  guild : option Guild
}.

(** One call into discord.py or asyncio, as observed from outside. *)
Inductive event :=
| Respond (msg : pystr) (ephemeral : bool)
| Defer
| Followup (msg : pystr) (ephemeral : bool)
| ChannelSend (content : pystr) (r : outcome)
| Sleep (secs : Q)
| MemberEdit (target : Z) (nick reason : pystr) (r : outcome).

(** Process state: the two module-level dicts, the calls made so far (oldest
    first) and how often the loop clock has been read. *)
Record world := {
  user_last : gmap Z Q;
  guild_last : gmap Z Q;
  trace : list event;
  reads : nat
}.

(** [w] after the calls [evs]. *)
Definition push (w : world) (evs : list event) : world :=
  {| user_last := user_last w; guild_last := guild_last w;
     trace := trace w ++ evs; reads := reads w |}.

(** [w] after one more reading of the clock. *)
Definition tick (w : world) : world :=
  {| user_last := user_last w; guild_last := guild_last w;
     trace := trace w; reads := S (reads w) |}.

(** The environment: the bot's own user id, the successive readings of the
    loop clock, and what the k-th [channel.send] and the k-th [Member.edit]
    of the process do. *)
Record Env := {
  bot_user_id : Z;
  clock : nat -> Q;
  channel_outcome : nat -> pystr -> outcome;
  edit_outcome : nat -> Z -> pystr -> pystr -> outcome
}.

Definition is_send (e : event) : bool :=
  match e with ChannelSend _ _ => true | _ => false end.

Definition is_edit (e : event) : bool :=
  match e with MemberEdit _ _ _ _ => true | _ => false end.

(** The payloads the channel received. *)
Fixpoint delivered (t : list event) : list pystr :=
  match t with
  | ChannelSend c Returned :: t' => c :: delivered t'
  | _ :: t' => delivered t'
  | [] => []
  end.

(** The ids of the members on which [edit] was called. *)
Fixpoint edited (t : list event) : list Z :=
  match t with
  | MemberEdit target _ _ _ :: t' => target :: edited t'
  | _ :: t' => edited t'
  | [] => []
  end.

(** ** A state and exception monad for the handlers *)

Definition M (A : Type) : Type := world -> (exn + A) * world.

#[global] Instance M_ret : MRet M := fun A a w => (inr a, w).

#[global] Instance M_bind : MBind M := fun A B f m w =>
  match m w with
  | (inr a, w') => f a w'
  | (inl e, w') => (inl e, w')
  end.

Definition raise {A} (e : exn) : M A := fun w => (inl e, w).

(** [try: body except Exception as e: handler(e)]. *)
Definition try_except {A} (body : M A) (handler : exn -> M A) : M A := fun w =>
  match body w with
  | (inl e, w') => handler e w'
  | r => r
  end.

Definition emit (e : event) : M unit := fun w => (inr tt, push w [e]).

Definition get_world : M world := fun w => (inr w, w).

Definition set_user_last (k : Z) (t : Q) : M unit := fun w =>
  (inr tt, {| user_last := <[k := t]> (user_last w);
              guild_last := guild_last w;
              trace := trace w; reads := reads w |}).

Definition set_guild_last (k : Z) (t : Q) : M unit := fun w =>
  (inr tt, {| user_last := user_last w;
              guild_last := <[k := t]> (guild_last w);
              trace := trace w; reads := reads w |}).

Definition respond (msg : pystr) (ephemeral : bool) : M unit :=
  emit (Respond msg ephemeral).

Definition followup (msg : pystr) (ephemeral : bool) : M unit :=
  emit (Followup msg ephemeral).

Definition sleep (secs : Q) : M unit := emit (Sleep secs).

Section Handlers.

Variable E : Env.

(** [asyncio.get_event_loop().time()]. *)
Definition loop_time : M Q := fun w => (inr (clock E (reads w)), tick w).

(** [await interaction.channel.send(content)]. *)
Definition channel_send (content : pystr) : M unit := fun w =>
  let r := channel_outcome E (length (List.filter is_send (trace w))) content in
  match r with
  | Returned => emit (ChannelSend content r) w
  | Raised e => (emit (ChannelSend content r) ;; raise e) w
  end.

(** [await m.edit(nick=nickname, reason=reason)]. *)
Definition member_edit (m : Member) (nickname reason : pystr) : M unit := fun w =>
  let r := edit_outcome E (length (List.filter is_edit (trace w)))
                        (m_id m) nickname reason in
  match r with
  | Returned => emit (MemberEdit (m_id m) nickname reason r) w
  | Raised e => (emit (MemberEdit (m_id m) nickname reason r) ;; raise e) w
  end.

(** *** [sendms] (bot.py, lines 67-106) *)

(** [interaction.guild_id or 0]. *)
Definition guild_key (i : Interaction) : Z :=
  match guild_id i with
  | Some g => if g =? 0 then 0 else g
  | None => 0
  end.

(** Lines 83-86: the loop over [(m1, m2, m3)] that fills [msgs]; a payload
    is kept when [m and m.strip()] is truthy. *)
Fixpoint build_msgs (ms : list (option pystr)) (msgs : list pystr) : list pystr :=
  match ms with
  | [] => msgs
  | m :: rest =>
      build_msgs rest
        (match m with
         | Some s =>
             if str_truthy s && str_truthy (strip s)
             then msgs ++ [firstn 2000 s] else msgs
         | None => msgs
         end)
  end.

(** Lines 95-98: [for i, content in enumerate(msgs)], entered at index [i]
    with [rest] still to send; [n] is [len(msgs)]. *)
Fixpoint send_loop (n : Z) (i : Z) (rest : list pystr) : M unit :=
  match rest with
  | [] => mret tt
  | content :: rest' =>
      channel_send content ;;
      (if i <? n - 1 then sleep (7 # 10) else mret tt) ;;
      send_loop n (i + 1) rest'
  end.

Definition fmt_optint (o : option Z) : pystr :=
  match o with Some n => str_of_int n | None => lit "None" end.

Definition MSG_USER_COOLDOWN (user_wait : option Z) : pystr :=
  lit "You're doing that too often " ++ [8212%N] ++ lit " try again in "
  ++ fmt_optint user_wait ++ lit "s.".
Definition MSG_GUILD_COOLDOWN : pystr :=
  lit "Server is handling requests. Try again in a moment.".
Definition MSG_NO_VALID : pystr := lit "No valid messages provided.".
Definition MSG_SENDING : pystr := lit "Sending message(s)...".
Definition MSG_SENT (n : Z) : pystr :=
  [9989%N] ++ lit " Sent " ++ str_of_int n ++ lit " message(s).".
Definition MSG_SEND_FORBIDDEN : pystr :=
  lit "I don't have permission to send messages in that channel.".
Definition MSG_SEND_FAILED (detail : pystr) : pystr :=
  lit "Failed to send messages: " ++ detail.

(** The two [except] clauses of lines 103-106. *)
Definition send_failure_message (e : exn) : pystr :=
  match e with
  | Forbidden => MSG_SEND_FORBIDDEN
  | OtherError detail => MSG_SEND_FAILED detail
  end.

Definition sendms (interaction : Interaction) (m1 : pystr)
    (m2 m3 : option pystr) : M unit :=
  let uid := m_id (user interaction) in
  let gid := guild_key interaction in
  w ← get_world;
  now ← loop_time;
  let user_wait := is_on_user_cooldown (user_last w) now uid in
  if optint_truthy user_wait then
    respond (MSG_USER_COOLDOWN user_wait) true
  else
    w ← get_world;
    now ← loop_time;
    let guild_wait := is_on_guild_cooldown (guild_last w) now gid in
    if optint_truthy guild_wait then
      respond MSG_GUILD_COOLDOWN true
    else
      let msgs := build_msgs [Some m1; m2; m3] [] in
      match msgs with
      | [] => respond MSG_NO_VALID true
      | _ :: _ =>
          respond MSG_SENDING true ;;
          try_except
            (send_loop (Z.of_nat (length msgs)) 0 msgs ;;
             t ← loop_time;
             set_user_last uid t ;;
             t ← loop_time;
             set_guild_last gid t ;;
             followup (MSG_SENT (Z.of_nat (length msgs))) true)
            (fun e => followup (send_failure_message e) true)
      end.

(** *** [changenick] (bot.py, lines 118-177) *)

(** [guild.get_member(user_id)]: the cached member with that id, if any. *)
Definition get_member (g : Guild) (uid : Z) : option Member :=
  List.find (fun m => m_id m =? uid) (members g).

Definition MAX_CHANGE : nat := 50.

(** Lines 141-144: the targets of a "change many" invocation. *)
Definition many_targets (g : Guild) : list Member :=
  let members :=
    List.filter (fun m => negb (m_bot m) && negb (m_id m =? bot_user_id E))
                (members g) in
  if (MAX_CHANGE <? length members)%nat then firstn MAX_CHANGE members
  else members.

Definition REASON_OWNER : pystr := lit "Server owner (cannot change)".
Definition REASON_HIERARCHY : pystr := lit "Role is equal or higher than bot".
Definition REASON_FORBIDDEN : pystr := lit "Forbidden".
Definition REASON_ERROR (detail : pystr) : pystr := lit "Error: " ++ detail.

(** The audit-log reason [f"Changed by {interaction.user}"]. *)
Definition audit_reason (invoker : Member) : pystr :=
  lit "Changed by " ++ m_str invoker.

(** The two lists the batch fills: [success] and [failed]. *)
Definition BatchResult : Type := list pystr * list (pystr * pystr).

(** Lines 154-169: [for m in targets], entered with the lists built so far. *)
Fixpoint rename_loop (g : Guild) (bot_member invoker : Member) (nickname : pystr)
    (targets : list Member) (success : list pystr)
    (failed : list (pystr * pystr)) : M BatchResult :=
  match targets with
  | [] => mret (success, failed)
  | m :: rest =>
      if m_id m =? owner_id g then
        rename_loop g bot_member invoker nickname rest success
                    (failed ++ [(display_name m, REASON_OWNER)])
      else if top_role_position bot_member <=? top_role_position m then
        rename_loop g bot_member invoker nickname rest success
                    (failed ++ [(display_name m, REASON_HIERARCHY)])
      else
        '(success', failed') ←
          try_except
            (member_edit m nickname (audit_reason invoker) ;;
             mret (success ++ [display_name m], failed))
            (fun e =>
               match e with
               | Forbidden =>
                   mret (success, failed ++ [(display_name m, REASON_FORBIDDEN)])
               | OtherError detail =>
                   mret (success,
                         failed ++ [(display_name m, REASON_ERROR detail)])
               end);
        sleep (1 # 4) ;;
        rename_loop g bot_member invoker nickname rest success' failed'
  end.

Definition failure_line (f : pystr * pystr) : pystr :=
  lit "- " ++ fst f ++ lit " " ++ [8212%N] ++ lit " " ++ snd f.

(** Lines 171-175: the text of the final response. *)
Definition summary (r : BatchResult) : pystr :=
  let '(success, failed) := r in
  let out :=
    [9989%N] ++ lit " Done. Changed " ++ str_of_int (Z.of_nat (length success))
    ++ lit " nickname(s). Failed: " ++ str_of_int (Z.of_nat (length failed))
    ++ lit "." ++ [10%N] in
  let out :=
    match success with
    | [] => out
    | _ :: _ =>
        out ++ lit "Changed: " ++ join (lit ", ") (firstn 20 success)
        ++ (if (20 <? length success)%nat then [10%N] else [10%N])
    end in
  match failed with
  | [] => out
  | _ :: _ =>
      out ++ lit "Failed:" ++ [10%N]
      ++ join [10%N] (List.map failure_line (firstn 40 failed))
  end.

Definition MSG_NEED_GUILD : pystr :=
  lit "This command must be used in a server.".
Definition MSG_NEED_PERMISSION : pystr :=
  lit "You must have Manage Nicknames (or be server owner) to use this command.".
Definition MSG_BOT_NEEDS_PERMISSION : pystr :=
  lit "I need the Manage Nicknames permission to do this.".
Definition MSG_NEED_MEMBER : pystr :=
  lit "You must specify a member unless change_many is true.".

Definition changenick (interaction : Interaction) (nickname : pystr)
    (member : option Member) (change_many : bool) : M unit :=
  match guild interaction with
  | None => respond MSG_NEED_GUILD true
  | Some g =>
      if negb (manage_nicknames (user interaction)
               || (m_id (user interaction) =? owner_id g)) then
        respond MSG_NEED_PERMISSION true
      else
        match get_member g (bot_user_id E) with
        | None => respond MSG_BOT_NEEDS_PERMISSION true
        | Some bot_member =>
            if negb (manage_nicknames bot_member) then
              respond MSG_BOT_NEEDS_PERMISSION true
            else
              emit Defer ;;
              let run targets :=
                r ← rename_loop g bot_member (user interaction) nickname
                                targets [] [];
                followup (summary r) false in
              if change_many then run (many_targets g)
              else
                match member with
                | None => followup MSG_NEED_MEMBER true
                | Some m => run [m]
                end
        end
  end.

End Handlers.

(** ** Vocabulary of the specification *)

(** A blank payload: empty, or whitespace only. *)
Definition blank (s : pystr) : bool := forallb isspace s.

(** The payloads that are present (not [None]), in submission order. *)
Definition present (ps : list (option pystr)) : list pystr :=
  flat_map (fun p => match p with Some s => [s] | None => [] end) ps.

(** Normalization as the specification words it: drop the null and the
    blank payloads, truncate each retained one to its first 2000 units. *)
Definition normalized_spec (ps : list (option pystr)) : list pystr :=
  List.map (firstn 2000) (List.filter (fun s => negb (blank s)) (present ps)).

(** [remaining = windowSeconds - (now - lastActionTimestamp)]. *)
Definition remaining (window : Z) (now last : Q) : Q :=
  (inject_Z window - (now - last))%Q.

(** Number of [channel.send] calls made so far. *)
Definition sends_attempted (t : list event) : nat :=
  length (List.filter is_send t).

(** The trace of a run of successful sends: payload [c] at index [i] of [n]
    is followed by the pacing delay unless it is the last one. *)
Fixpoint sent_events (n i : Z) (cs : list pystr) : list event :=
  match cs with
  | [] => []
  | c :: cs' =>
      ChannelSend c Returned
      :: (if i <? n - 1 then [Sleep (7 # 10)] else []) ++ sent_events n (i + 1) cs'
  end.

(** Both cooldown checks of [sendms] let the invocation through. *)
Definition cooldowns_clear (E : Env) (i : Interaction) (w : world) : Prop :=
  optint_truthy
    (is_on_user_cooldown (user_last w) (clock E (reads w)) (m_id (user i)))
  = false
  /\ optint_truthy
       (is_on_guild_cooldown (guild_last w) (clock E (S (reads w))) (guild_key i))
     = false.

(** The sends of [msgs], started in world [w], all return. *)
Definition all_sends_return (E : Env) (w : world) (msgs : list pystr) : Prop :=
  forall j, (j < length msgs)%nat ->
    channel_outcome E (sends_attempted (trace w) + j) (nth j msgs []) = Returned.

(** Send number [k] of [msgs] is the first one to raise, with [e]. *)
Definition first_failure (E : Env) (w : world) (msgs : list pystr)
    (k : nat) (e : exn) : Prop :=
  (k < length msgs)%nat
  /\ (forall j, (j < k)%nat ->
        channel_outcome E (sends_attempted (trace w) + j) (nth j msgs []) = Returned)
  /\ channel_outcome E (sends_attempted (trace w) + k) (nth k msgs []) = Raised e.

(** The members a "change many" invocation may touch: neither a bot nor the
    bot itself. *)
Definition eligible (E : Env) (m : Member) : bool :=
  negb (m_bot m) && negb (m_id m =? bot_user_id E).

(** A target that passes both hard rules, so that [edit] is called on it. *)
Definition editable (g : Guild) (bot_member m : Member) : bool :=
  negb (m_id m =? owner_id g)
  && negb (top_role_position bot_member <=? top_role_position m).

(** [changenick] passes its three precondition checks and resolves its
    arguments to the target list [targets]. *)
Definition reaches_batch (E : Env) (i : Interaction) (member : option Member)
    (change_many : bool) (g : Guild) (bot_member : Member)
    (targets : list Member) : Prop :=
  guild i = Some g
  /\ (manage_nicknames (user i) || (m_id (user i) =? owner_id g)) = true
  /\ get_member g (bot_user_id E) = Some bot_member
  /\ manage_nicknames bot_member = true
  /\ (if change_many then targets = many_targets E g
      else match member with Some m => targets = [m] | None => False end).

(** [success] and [failed] split [targets]: going through the targets in
    order, each one contributes the next entry of exactly one of the two
    sequences. *)
Inductive splits : list Member -> list pystr -> list (pystr * pystr) -> Prop :=
| splits_nil : splits [] [] []
| splits_success m ts s f :
    splits ts s f -> splits (m :: ts) (display_name m :: s) f
| splits_failed m reason ts s f :
    splits ts s f -> splits (m :: ts) s ((display_name m, reason) :: f).

(** ** Sample data *)

Definition world0 : world :=
  {| user_last := ∅; guild_last := ∅; trace := []; reads := 0 |}.

(** A process whose clock reads 100, 101, ...; its second [channel.send] is
    denied; its second [edit] is denied and its third fails otherwise. *)
Definition env0 : Env :=
  {| bot_user_id := 999;
     clock := fun n => inject_Z (100 + Z.of_nat n);
     channel_outcome := fun k _ =>
       match k with 1%nat => Raised Forbidden | _ => Returned end;
     edit_outcome := fun k _ _ _ =>
       match k with
       | 1%nat => Raised Forbidden
       | 2%nat => Raised (OtherError (lit "HTTP 500"))
       | _ => Returned
       end |}.

(** A process in which every platform call succeeds. *)
Definition env_ok : Env :=
  {| bot_user_id := 999;
     clock := fun n => inject_Z (100 + Z.of_nat n);
     channel_outcome := fun _ _ => Returned;
     edit_outcome := fun _ _ _ _ => Returned |}.

Definition mk_member (id : Z) (name : string) (position : Z) (perm : bool)
  : Member :=
  {| m_id := id; m_bot := false; display_name := lit name;
     top_role_position := position; manage_nicknames := perm;
     m_str := lit name |}.

Definition alice : Member := mk_member 1 "alice" 9 true.
Definition bob : Member := mk_member 2 "bob" 1 false.
Definition carol : Member := mk_member 3 "carol" 7 false.
Definition dave : Member := mk_member 4 "dave" 2 false.
Definition erin : Member := mk_member 5 "erin" 3 false.
Definition the_bot : Member :=
  {| m_id := 999; m_bot := true; display_name := lit "bot";
     top_role_position := 5; manage_nicknames := true; m_str := lit "bot" |}.

(** A guild owned by alice. *)
Definition guild0 : Guild :=
  {| owner_id := 1; members := [alice; bob; the_bot; carol; dave; erin] |}.

(** The same guild with a bot that may not manage nicknames. *)
Definition guild_weak_bot : Guild :=
  {| owner_id := 1;
     members := [alice; bob;
                 {| m_id := 999; m_bot := true; display_name := lit "bot";
                    top_role_position := 5; manage_nicknames := false;
                    m_str := lit "bot" |}] |}.

(** A guild with 51 eligible members below the bot, listed after it. *)
Definition crowd : list Member :=
  List.map (fun k => mk_member (Z.of_nat k) "member" 1 false) (seq 100 51).

Definition guild51 : Guild :=
  {| owner_id := 1; members := the_bot :: crowd |}.

Definition in_guild (u : Member) (g : Guild) : Interaction :=
  {| user := u; guild_id := Some 42; guild := Some g |}.

Definition direct_message (u : Member) : Interaction :=
  {| user := u; guild_id := None; guild := None |}.
(** ** Process-level error logging (bot.py, lines 15-32) *)

(** What the two hooks touch: the file [errors.log] ([None] while it does
    not exist), the lines printed so far, and how often the interpreter's
    own hook [sys.__excepthook__] was called. *)
Record io := {
  errors_log : option pystr;
  stdout : list pystr;
  default_hook_calls : nat
}.

(** An uncaught exception as [sys.excepthook] receives it: whether
    [issubclass(exc_type, KeyboardInterrupt)] holds, and the list of strings
    [traceback.format_exception] returns for it. *)
Record uncaught := {
  is_keyboard_interrupt : bool;
  formatted : list pystr
}.

(** What Python's strict UTF-8 encoder accepts: any text without a
    surrogate code point (U+D800 to U+DFFF). *)
Definition utf8_encodable (s : pystr) : bool :=
  forallb (fun c => negb ((55296 <=? c) && (c <=? 57343))%N) s.

(** [f.write(t1); f.write(t2); ...] on a file opened for appending with
    [encoding="utf-8"]: a [write] encodes its text before it adds anything
    and raises [UnicodeEncodeError] on a text it cannot encode; the writes
    after it are not reached.  The flag tells whether all went through. *)
Fixpoint write_all (texts : list pystr) (content : pystr) : pystr * bool :=
  match texts with
  | [] => (content, true)
  | t :: rest =>
      if utf8_encodable t then write_all rest (content ++ t)
      else (content, false)
  end.

(** [with open("errors.log", "a", encoding="utf-8") as f: ...]: the file is
    created when missing, earlier contents stay. *)
Definition append_log (texts : list pystr) (s : io) : io * bool :=
  let '(content, ok) := write_all texts (default [] (errors_log s)) in
  ({| errors_log := Some content;
      stdout := stdout s;
      default_hook_calls := default_hook_calls s |}, ok).

(** [print(line)]; [accepts] tells which texts the encoder of [sys.stdout]
    takes, on any other [print] raises and prints nothing. *)
Definition print (accepts : pystr -> bool) (line : pystr) (s : io) : io * bool :=
  if accepts line then
    ({| errors_log := errors_log s;
        stdout := stdout s ++ [line];
        default_hook_calls := default_hook_calls s |}, true)
  else (s, false).

Definition MSG_UNCAUGHT : pystr :=
  lit "An uncaught exception occurred. Check errors.log for details.".

(** [log_uncaught_exceptions] (lines 15-22).  An exception raised inside
    the hook ends it there; the state reached so far stays. *)
Definition log_uncaught_exceptions (accepts : pystr -> bool) (x : uncaught)
    (s : io) : io :=
  if is_keyboard_interrupt x then
    {| errors_log := errors_log s;
       stdout := stdout s;
       default_hook_calls := S (default_hook_calls s) |}
  else
    let '(s1, ok) := append_log [join [] (formatted x); [10%N; 10%N]] s in
    if ok then fst (print accepts MSG_UNCAUGHT s1) else s1.

(** [f"{msg}"] for a value that may be [None]. *)
Definition fmt_opt (o : option pystr) : pystr :=
  match o with Some v => v | None => lit "None" end.

(** [context.get("exception", context.get("message"))]; the values of
    [context] are given by their [str]. *)
Definition context_msg (context : gmap string pystr) : option pystr :=
  match context !! "exception"%string with
  | Some v => Some v
  | None => context !! "message"%string
  end.

(** [handle_async_exception] (lines 26-30). *)
Definition handle_async_exception (accepts : pystr -> bool)
    (context : gmap string pystr) (s : io) : io :=
  let msg := context_msg context in
  let '(s1, ok) :=
    print accepts (lit "Caught asyncio exception: " ++ fmt_opt msg) s in
  if ok then
    fst (append_log [lit "Asyncio exception: " ++ fmt_opt msg ++ [10%N; 10%N]]
                    s1)
  else s1.

(** One call of either hook by the interpreter or the event loop. *)
Inductive hook_call :=
| Uncaught (x : uncaught)
| AsyncError (context : gmap string pystr).

Definition run_hook (accepts : pystr -> bool) (c : hook_call) (s : io) : io :=
  match c with
  | Uncaught x => log_uncaught_exceptions accepts x s
  | AsyncError context => handle_async_exception accepts context s
  end.

(** The hooks called one after the other, oldest call first. *)
Definition run_hooks (accepts : pystr -> bool) (cs : list hook_call) (s : io)
  : io :=
  fold_left (fun s c => run_hook accepts c s) cs s.

(** A call that is handed to the interpreter's own hook. *)
Definition is_interrupt (c : hook_call) : bool :=
  match c with
  | Uncaught x => is_keyboard_interrupt x
  | AsyncError _ => false
  end.

(** The text a call adds to [errors.log]: nothing for a keyboard interrupt,
    nothing when the text cannot be encoded or, for an event-loop error,
    when the [print] before the write is refused. *)
Definition log_entry (accepts : pystr -> bool) (c : hook_call) : pystr :=
  match c with
  | Uncaught x =>
      if is_keyboard_interrupt x then []
      else if utf8_encodable (concat (formatted x))
           then concat (formatted x) ++ [10%N; 10%N]
           else []
  | AsyncError context =>
      let msg := fmt_opt (context_msg context) in
      if accepts (lit "Caught asyncio exception: " ++ msg)
         && utf8_encodable (lit "Asyncio exception: " ++ msg ++ [10%N; 10%N])
      then lit "Asyncio exception: " ++ msg ++ [10%N; 10%N]
      else []
  end.

(** ** More vocabulary for traces and worlds *)

Definition is_sleep (e : event) : bool :=
  match e with Sleep _ => true | _ => false end.

Definition is_respond (e : event) : bool :=
  match e with Respond _ _ => true | Defer => true | _ => false end.

Definition is_followup (e : event) : bool :=
  match e with Followup _ _ => true | _ => false end.

(** The loop clock never runs backwards. *)
Definition clock_monotone (E : Env) : Prop :=
  forall n, (clock E n <= clock E (S n))%Q.

(** No recorded timestamp lies after the next reading of the clock. *)
Definition stamps_in_past (E : Env) (w : world) : Prop :=
  (forall k t, user_last w !! k = Some t -> (t <= clock E (reads w))%Q)
  /\ (forall k t, guild_last w !! k = Some t -> (t <= clock E (reads w))%Q).

(** An [edit] call made by a batch with this nickname and this invoker. *)
Definition edit_as (nickname : pystr) (invoker : Member) (e : event) : Prop :=
  match e with
  | MemberEdit _ nick reason _ =>
      nick = nickname /\ reason = audit_reason invoker
  | _ => True
  end.

(** Number of [Member.edit] calls made so far. *)
Definition edits_attempted (t : list event) : nat :=
  length (List.filter is_edit t).

(** The outcome of a batch, read off the targets and the environment:
    [k] is the number of [edit] calls the process has made before.  The
    calls and delays of the batch, in order... *)
Fixpoint batch_events (E : Env) (g : Guild) (bot_member invoker : Member)
    (nickname : pystr) (k : nat) (targets : list Member) : list event :=
  match targets with
  | [] => []
  | m :: rest =>
      if editable g bot_member m then
        MemberEdit (m_id m) nickname (audit_reason invoker)
                   (edit_outcome E k (m_id m) nickname (audit_reason invoker))
        :: Sleep (1 # 4)
        :: batch_events E g bot_member invoker nickname (S k) rest
      else batch_events E g bot_member invoker nickname k rest
  end.

(** ... the display names it adds to [success]... *)
Fixpoint batch_success (E : Env) (g : Guild) (bot_member invoker : Member)
    (nickname : pystr) (k : nat) (targets : list Member) : list pystr :=
  match targets with
  | [] => []
  | m :: rest =>
      if editable g bot_member m then
        match edit_outcome E k (m_id m) nickname (audit_reason invoker) with
        | Returned =>
            display_name m
            :: batch_success E g bot_member invoker nickname (S k) rest
        | Raised _ => batch_success E g bot_member invoker nickname (S k) rest
        end
      else batch_success E g bot_member invoker nickname k rest
  end.

(** ... and the entries it adds to [failed]. *)
Fixpoint batch_failed (E : Env) (g : Guild) (bot_member invoker : Member)
    (nickname : pystr) (k : nat) (targets : list Member)
  : list (pystr * pystr) :=
  match targets with
  | [] => []
  | m :: rest =>
      if m_id m =? owner_id g then
        (display_name m, REASON_OWNER)
        :: batch_failed E g bot_member invoker nickname k rest
      else if top_role_position bot_member <=? top_role_position m then
        (display_name m, REASON_HIERARCHY)
        :: batch_failed E g bot_member invoker nickname k rest
      else
        match edit_outcome E k (m_id m) nickname (audit_reason invoker) with
        | Returned => batch_failed E g bot_member invoker nickname (S k) rest
        | Raised Forbidden =>
            (display_name m, REASON_FORBIDDEN)
            :: batch_failed E g bot_member invoker nickname (S k) rest
        | Raised (OtherError detail) =>
            (display_name m, REASON_ERROR detail)
            :: batch_failed E g bot_member invoker nickname (S k) rest
        end
  end.

(** One of the four reasons a target can fail with. *)
Definition known_reason (r : pystr) : Prop :=
  r = REASON_OWNER \/ r = REASON_HIERARCHY \/ r = REASON_FORBIDDEN
  \/ exists detail, r = REASON_ERROR detail.

(** A process whose clock reads 119.5, 120.5, ... and in which every
    platform call succeeds. *)
Definition env_last_second : Env :=
  {| bot_user_id := 999;
     clock := fun n => ((239 # 2) + inject_Z (Z.of_nat n))%Q;
     channel_outcome := fun _ _ => Returned;
     edit_outcome := fun _ _ _ _ => Returned |}.

(** A world in which bob's last action was recorded at clock value 100. *)
Definition world_stamped : world :=
  {| user_last := {[ 2 := 100%Q ]}; guild_last := ∅; trace := []; reads := 0 |}.

(** A process in which every [edit] is denied. *)
Definition env_denied : Env :=
  {| bot_user_id := 999;
     clock := fun n => inject_Z (100 + Z.of_nat n);
     channel_outcome := fun _ _ => Raised Forbidden;
     edit_outcome := fun _ _ _ _ => Raised Forbidden |}.

Definition io0 : io :=
  {| errors_log := None; stdout := []; default_hook_calls := 0 |}.

(** ** Facts about the Python values *)

Lemma Qpositive_true (x : Q) : Qpositive x = true <-> (0 < x)%Q.
Proof.
  unfold Qpositive. rewrite negb_true_iff, <- not_true_iff_false, Qle_bool_iff.
  split; [apply Qnot_le_lt | apply Qlt_not_le].
Qed.

Lemma Qpositive_false (x : Q) : Qpositive x = false <-> (x <= 0)%Q.
Proof.
  unfold Qpositive. rewrite negb_false_iff. apply Qle_bool_iff.
Qed.

Lemma py_int_floor (x : Q) : (0 <= x)%Q -> py_int x = Qfloor x.
Proof.
  destruct x as [n d]. unfold Qle, py_int, Qfloor. simpl. intros Hn.
  apply Z.quot_div_nonneg; lia.
Qed.

Lemma Qfloor_nonneg (x : Q) : (0 <= x)%Q -> 0 <= Qfloor x.
Proof.
  intros Hx. change 0 with (Qfloor 0). now apply Qfloor_resp_le.
Qed.

Lemma Qfloor_pos_iff (x : Q) : 0 < Qfloor x <-> (1 <= x)%Q.
Proof.
  split; intros H.
  - apply Qle_trans with (inject_Z (Qfloor x)); [| apply Qfloor_le].
    change 1%Q with (inject_Z 1). rewrite <- Zle_Qle. lia.
  - apply Qfloor_resp_le in H. change (Qfloor 1) with 1 in H. lia.
Qed.

(** ** Cooldown tracker *)

Section Cooldown.

Variables (last_map : gmap Z Q) (key : Z) (now : Q).

(** Both helpers are one computation, at their own window. *)
Lemma is_on_user_cooldown_unfold :
  is_on_user_cooldown last_map now key =
  let r := remaining USER_COOLDOWN_SECS now (default 0%Q (last_map !! key)) in
  if Qpositive r then Some (py_int r) else None.
Proof. reflexivity. Qed.

Lemma is_on_guild_cooldown_unfold :
  is_on_guild_cooldown last_map now key =
  let r := remaining GUILD_COOLDOWN_SECS now (default 0%Q (last_map !! key)) in
  if Qpositive r then Some (py_int r) else None.
Proof. reflexivity. Qed.

(** What [int(remaining) if remaining > 0 else None] returns. *)
Lemma peek_positive (r : Q) :
  (0 < r)%Q ->
  (if Qpositive r then Some (py_int r) else None) = Some (Qfloor r).
Proof.
  intros Hr. apply Qpositive_true in Hr as Hb. rewrite Hb.
  f_equal. apply py_int_floor. now apply Qlt_le_weak.
Qed.

Lemma peek_expired (r : Q) :
  (r <= 0)%Q -> (if Qpositive r then Some (py_int r) else None) = None.
Proof. intros Hr. apply Qpositive_false in Hr. now rewrite Hr. Qed.

(** A key without an entry is read as last used at clock value 0: it is
    clear once the clock has passed the window. *)
Lemma unseen_user_clear_late :
  last_map !! key = None -> (inject_Z USER_COOLDOWN_SECS <= now)%Q ->
  is_on_user_cooldown last_map now key = None.
Proof.
  intros Hk Hnow. rewrite is_on_user_cooldown_unfold, Hk. simpl.
  apply peek_expired. unfold remaining. lra.
Qed.

Lemma unseen_guild_clear_late :
  last_map !! key = None -> (inject_Z GUILD_COOLDOWN_SECS <= now)%Q ->
  is_on_guild_cooldown last_map now key = None.
Proof.
  intros Hk Hnow. rewrite is_on_guild_cooldown_unfold, Hk. simpl.
  apply peek_expired. unfold remaining. lra.
Qed.

End Cooldown.

(** C1 (the code departs from the claim).  A scope key on which no action
    was ever recorded is reported as on cooldown while the loop clock is
    still below the window: with empty maps, the user check at clock value 5
    returns 15 and the guild check at clock value 2 returns 3, where the
    claim says none. *)
Theorem unseen_key_blocked_early :
  is_on_user_cooldown ∅ 5%Q 1 = Some 15
  /\ is_on_guild_cooldown ∅ 2%Q 1 = Some 3.
Proof. split; reflexivity. Qed.

(** C2 (the code departs from the claim).  Inside the last second of the
    window the checks return 0, which is neither the ceiling of the
    remaining time nor strictly positive, and which the callers' tests
    [if user_wait:] and [if guild_wait:] take for "not on cooldown": 19.5
    seconds after a user action recorded at 100 the user check returns 0
    (the claim says 1), 4.5 seconds after a guild action the guild check
    returns 0, and [sendms] lets the user through and sends.  Earlier in
    the window [int] cuts the fraction off: with 1.5 seconds remaining the
    check returns 1 where the ceiling is 2. *)
Theorem cooldown_zero_in_last_second :
  (0 < remaining USER_COOLDOWN_SECS (239 # 2) 100%Q)%Q
  /\ is_on_user_cooldown {[ 7 := 100%Q ]} (239 # 2) 7 = Some 0
  /\ Qceiling (remaining USER_COOLDOWN_SECS (239 # 2) 100%Q) = 1
  /\ (0 < remaining GUILD_COOLDOWN_SECS (209 # 2) 100%Q)%Q
  /\ is_on_guild_cooldown {[ 7 := 100%Q ]} (209 # 2) 7 = Some 0
  /\ Qceiling (remaining GUILD_COOLDOWN_SECS (209 # 2) 100%Q) = 1
  /\ is_on_user_cooldown {[ 7 := 100%Q ]} (237 # 2) 7 = Some 1
  /\ Qceiling (remaining USER_COOLDOWN_SECS (237 # 2) 100%Q) = 2
  /\ delivered
       (trace (snd (sendms env_last_second (in_guild bob guild0) (lit "hi")
                           None None world_stamped)))
     = [lit "hi"].
Proof. repeat split; reflexivity. Qed.

(** ** Message normalization *)

Section Normalization.

Lemma blank_app (s t : pystr) : blank (s ++ t) = blank s && blank t.
Proof. apply forallb_app. Qed.

Lemma blank_rev (s : pystr) : blank (rev s) = blank s.
Proof.
  induction s as [| c s IH]; [reflexivity |].
  simpl rev. rewrite blank_app, IH. simpl. rewrite andb_true_r. apply andb_comm.
Qed.

Lemma blank_lstrip (s : pystr) : blank (lstrip s) = blank s.
Proof.
  induction s as [| c s IH]; [reflexivity |].
  simpl. destruct (isspace c) eqn:Hc; simpl; [exact IH | now rewrite Hc].
Qed.

Lemma blank_strip (s : pystr) : blank (strip s) = blank s.
Proof.
  unfold strip, rstrip. now rewrite blank_rev, blank_lstrip, blank_rev, blank_lstrip.
Qed.

Lemma lstrip_blank (s : pystr) : blank s = true -> lstrip s = [].
Proof.
  induction s as [| c s IH]; [reflexivity |].
  simpl. intros [Hc Hs]%andb_prop. rewrite Hc. auto.
Qed.

(** The test [m and m.strip()] keeps exactly the payloads that are not
    blank. *)
Lemma keeps_not_blank (s : pystr) :
  str_truthy s && str_truthy (strip s) = negb (blank s).
Proof.
  destruct (blank s) eqn:Hb; simpl.
  - unfold strip, rstrip. rewrite (lstrip_blank s Hb). simpl. apply andb_false_r.
  - pose proof (blank_strip s) as Hs. rewrite Hb in Hs.
    destruct s; [discriminate |]. destruct (strip (n :: s)); [discriminate |].
    reflexivity.
Qed.

(** The loop of lines 83-86 appends the normalized payloads to [msgs]. *)
Lemma build_msgs_spec (ms : list (option pystr)) (msgs : list pystr) :
  build_msgs ms msgs = msgs ++ normalized_spec ms.
Proof.
  revert msgs. induction ms as [| m ms IH]; intros msgs.
  - simpl. now rewrite app_nil_r.
  - simpl build_msgs. rewrite IH. destruct m as [s |].
    + rewrite keeps_not_blank. unfold normalized_spec. simpl.
      destruct (blank s); simpl; [reflexivity |].
      now rewrite <- app_assoc.
    + reflexivity.
Qed.

End Normalization.

(** ** Traces and worlds *)

Lemma sends_attempted_app (t u : list event) :
  sends_attempted (t ++ u) = (sends_attempted t + sends_attempted u)%nat.
Proof. unfold sends_attempted. now rewrite List.filter_app, length_app. Qed.

Lemma delivered_app (t u : list event) :
  delivered (t ++ u) = delivered t ++ delivered u.
Proof.
  induction t as [| e t IH]; [reflexivity |].
  destruct e as [| | | c [|] | |]; simpl; now rewrite ?IH.
Qed.

Lemma edited_app (t u : list event) : edited (t ++ u) = edited t ++ edited u.
Proof.
  induction t as [| e t IH]; [reflexivity |].
  destruct e; simpl; now rewrite ?IH.
Qed.

Lemma push_nil (w : world) : push w [] = w.
Proof. destruct w. unfold push. simpl. now rewrite app_nil_r. Qed.

Lemma push_push (w : world) (t u : list event) :
  push (push w t) u = push w (t ++ u).
Proof. unfold push. simpl. now rewrite app_assoc. Qed.

Lemma bind_run {A B} (m : M A) (f : A -> M B) (w : world) :
  (m ≫= f) w =
  match m w with
  | (inr a, w') => f a w'
  | (inl e, w') => (inl e, w')
  end.
Proof. reflexivity. Qed.

Lemma delivered_sent_events (n i : Z) (cs : list pystr) :
  delivered (sent_events n i cs) = cs.
Proof.
  revert i. induction cs as [| c cs IH]; intros i; [reflexivity |].
  simpl. rewrite delivered_app, IH. now destruct (i <? n - 1).
Qed.

Lemma sends_attempted_sent_events (n i : Z) (cs : list pystr) :
  sends_attempted (sent_events n i cs) = length cs.
Proof.
  revert i. induction cs as [| c cs IH]; intros i; [reflexivity |].
  simpl sent_events. change (?e :: ?t ++ ?u) with ([e] ++ t ++ u).
  rewrite !sends_attempted_app, IH. now destruct (i <? n - 1).
Qed.

(** ** The send loop of [sendms] *)

Section SendLoop.

Variable E : Env.

Lemma channel_send_returns (c : pystr) (w : world) :
  channel_outcome E (sends_attempted (trace w)) c = Returned ->
  channel_send E c w = (inr tt, push w [ChannelSend c Returned]).
Proof. unfold channel_send, sends_attempted. now intros ->. Qed.

Lemma channel_send_raises (c : pystr) (e : exn) (w : world) :
  channel_outcome E (sends_attempted (trace w)) c = Raised e ->
  channel_send E c w = (inl e, push w [ChannelSend c (Raised e)]).
Proof. unfold channel_send, sends_attempted. now intros ->. Qed.

Lemma pacing_run (n i : Z) (w : world) :
  (if i <? n - 1 then sleep (7 # 10) else mret tt) w
  = (inr tt, push w (if i <? n - 1 then [Sleep (7 # 10)] else [])).
Proof.
  destruct (i <? n - 1); [reflexivity |].
  now rewrite push_nil.
Qed.

(** After a send that returned and its pacing delay, the next send is the
    next one the oracle is asked about. *)
Lemma sends_attempted_step (n i : Z) (c : pystr) (w : world) (j : nat) :
  (sends_attempted
     (trace (push (push w [ChannelSend c Returned])
                  (if (i <? n - 1)%Z then [Sleep (7 # 10)] else []))) + j
   = sends_attempted (trace w) + S j)%nat.
Proof.
  cbn [push trace]. rewrite !sends_attempted_app.
  replace (sends_attempted (if i <? n - 1 then [Sleep (7 # 10)] else []))
    with 0%nat by now destruct (i <? n - 1).
  change (sends_attempted [ChannelSend c Returned]) with 1%nat. lia.
Qed.

(** If every send returns, the loop runs to its end. *)
Lemma send_loop_returns (n i : Z) (msgs : list pystr) (w : world) :
  all_sends_return E w msgs ->
  send_loop E n i msgs w = (inr tt, push w (sent_events n i msgs)).
Proof.
  revert i w. induction msgs as [| c msgs IH]; intros i w Hall.
  - simpl. now rewrite push_nil.
  - simpl send_loop. rewrite bind_run, channel_send_returns.
    2:{ specialize (Hall 0%nat). simpl in Hall.
        rewrite Nat.add_0_r in Hall. apply Hall. lia. }
    rewrite bind_run, pacing_run, IH, !push_push; [reflexivity |].
    intros j Hj. rewrite sends_attempted_step. apply (Hall (S j)). simpl. lia.
Qed.

(** If send [k] is the first to raise, the loop stops there. *)
Lemma send_loop_raises (n i : Z) (msgs : list pystr) (k : nat) (e : exn)
    (w : world) :
  first_failure E w msgs k e ->
  send_loop E n i msgs w
  = (inl e, push w (sent_events n i (firstn k msgs)
                    ++ [ChannelSend (nth k msgs []) (Raised e)])).
Proof.
  revert i k w. induction msgs as [| c msgs IH]; intros i k w (Hk & Hbefore & Hat).
  - simpl in Hk. lia.
  - simpl send_loop. rewrite bind_run. destruct k as [| k].
    + simpl in Hat. rewrite Nat.add_0_r in Hat.
      now rewrite (channel_send_raises _ _ _ Hat).
    + rewrite channel_send_returns.
      2:{ specialize (Hbefore 0%nat). simpl in Hbefore.
          rewrite Nat.add_0_r in Hbefore. apply Hbefore. lia. }
      rewrite bind_run, pacing_run, (IH (i + 1) k), !push_push.
      * simpl. now rewrite <- !app_assoc.
      * split; [simpl in Hk; lia |]. split.
        -- intros j Hj. rewrite sends_attempted_step. apply (Hbefore (S j)). lia.
        -- rewrite sends_attempted_step. exact Hat.
Qed.

(** A finite run of calls either all return, or has a first that raises. *)
Lemma first_raise (f : nat -> outcome) (len : nat) :
  (forall j, (j < len)%nat -> f j = Returned)
  \/ exists k e, (k < len)%nat
                 /\ (forall j, (j < k)%nat -> f j = Returned) /\ f k = Raised e.
Proof.
  induction len as [| len IH].
  - left. intros j Hj. lia.
  - destruct IH as [Hall | (k & e & Hk & Hbefore & Hat)].
    + destruct (f len) as [| e] eqn:Hlen.
      * left. intros j Hj. destruct (Nat.eq_dec j len) as [-> | Hne]; [exact Hlen |].
        apply Hall. lia.
      * right. exists len, e. repeat split; [lia | | exact Hlen].
        intros j Hj. now apply Hall.
    + right. exists k, e. repeat split; [lia | exact Hbefore | exact Hat].
Qed.

Lemma sends_return_or_fail (msgs : list pystr) (w : world) :
  all_sends_return E w msgs \/ exists k e, first_failure E w msgs k e.
Proof.
  exact (first_raise
           (fun j => channel_outcome E (sends_attempted (trace w) + j)
                                     (nth j msgs []))
           (length msgs)).
Qed.

End SendLoop.

(** ** Runs of [sendms] *)

Section SendMs.

Variables (E : Env) (i : Interaction) (m1 : pystr) (m2 m3 : option pystr).
Variable w : world.

Let uid := m_id (user i).
Let gid := guild_key i.
Let msgs := build_msgs [Some m1; m2; m3] [].
Let user_wait := is_on_user_cooldown (user_last w) (clock E (reads w)) uid.
Let guild_wait :=
  is_on_guild_cooldown (guild_last w) (clock E (S (reads w))) gid.

Ltac step := rewrite bind_run; unfold get_world, loop_time; cbv beta iota zeta.

Lemma sendms_user_rejected :
  optint_truthy user_wait = true ->
  sendms E i m1 m2 m3 w
  = (inr tt, push (tick w) [Respond (MSG_USER_COOLDOWN user_wait) true]).
Proof.
  intros Hu. unfold sendms. do 2 step.
  cbn [user_last guild_last reads tick]. fold uid user_wait. now rewrite Hu.
Qed.

Lemma sendms_guild_rejected :
  optint_truthy user_wait = false -> optint_truthy guild_wait = true ->
  sendms E i m1 m2 m3 w
  = (inr tt, push (tick (tick w)) [Respond MSG_GUILD_COOLDOWN true]).
Proof.
  intros Hu Hg. unfold sendms. do 2 step.
  cbn [user_last guild_last reads tick]. fold uid user_wait. rewrite Hu.
  do 2 step. cbn [user_last guild_last reads tick]. fold gid guild_wait.
  now rewrite Hg.
Qed.

Lemma sendms_no_content :
  cooldowns_clear E i w -> msgs = [] ->
  sendms E i m1 m2 m3 w
  = (inr tt, push (tick (tick w)) [Respond MSG_NO_VALID true]).
Proof.
  intros [Hu Hg] Hm. unfold sendms. do 2 step.
  cbn [user_last guild_last reads tick]. rewrite Hu.
  do 2 step. cbn [user_last guild_last reads tick]. rewrite Hg.
  fold msgs. now rewrite Hm.
Qed.

(** The world in which the send loop starts. *)
Let started : world := push (tick (tick w)) [Respond MSG_SENDING true].

Lemma started_sends : sends_attempted (trace started) = sends_attempted (trace w).
Proof.
  unfold started. cbn [push tick trace]. rewrite sends_attempted_app.
  change (sends_attempted [Respond MSG_SENDING true]) with 0%nat. lia.
Qed.

Lemma sendms_started :
  cooldowns_clear E i w -> msgs <> [] ->
  sendms E i m1 m2 m3 w
  = try_except
      (send_loop E (Z.of_nat (length msgs)) 0 msgs ;;
       t ← loop_time E;
       set_user_last uid t ;;
       t ← loop_time E;
       set_guild_last gid t ;;
       followup (MSG_SENT (Z.of_nat (length msgs))) true)
      (fun e => followup (send_failure_message e) true)
      started.
Proof.
  intros [Hu Hg] Hm. unfold sendms. do 2 step.
  cbn [user_last guild_last reads tick]. rewrite Hu.
  do 2 step. cbn [user_last guild_last reads tick]. rewrite Hg.
  fold msgs uid gid. destruct msgs as [| c cs] eqn:Hmsgs; [congruence |].
  now step.
Qed.

(** All sends return: both scopes are recorded, each with its own clock
    reading, and the success message follows. *)
Lemma sendms_all_sent :
  cooldowns_clear E i w -> msgs <> [] -> all_sends_return E w msgs ->
  sendms E i m1 m2 m3 w
  = (inr tt,
     {| user_last := <[uid := clock E (S (S (reads w)))]> (user_last w);
        guild_last := <[gid := clock E (S (S (S (reads w))))]> (guild_last w);
        trace := trace w
                 ++ [Respond MSG_SENDING true]
                 ++ sent_events (Z.of_nat (length msgs)) 0 msgs
                 ++ [Followup (MSG_SENT (Z.of_nat (length msgs))) true];
        reads := S (S (S (S (reads w)))) |}).
Proof.
  intros Hclear Hm Hall. rewrite (sendms_started Hclear Hm).
  unfold try_except. rewrite bind_run, send_loop_returns.
  2:{ intros j Hj. rewrite started_sends. now apply Hall. }
  repeat (rewrite bind_run;
          unfold loop_time, set_user_last, set_guild_last; cbv beta iota zeta).
  unfold followup, emit, push, tick. cbn. now rewrite <- !app_assoc.
Qed.

(** Send [k] is the first to raise: the loop is left, nothing is recorded
    and the matching failure message follows. *)
Lemma sendms_aborted (k : nat) (e : exn) :
  cooldowns_clear E i w -> first_failure E w msgs k e ->
  sendms E i m1 m2 m3 w
  = (inr tt,
     {| user_last := user_last w;
        guild_last := guild_last w;
        trace := trace w
                 ++ [Respond MSG_SENDING true]
                 ++ sent_events (Z.of_nat (length msgs)) 0 (firstn k msgs)
                 ++ [ChannelSend (nth k msgs []) (Raised e);
                     Followup (send_failure_message e) true];
        reads := S (S (reads w)) |}).
Proof.
  intros Hclear Hfail.
  assert (Hm : msgs <> []).
  { destruct Hfail as [Hk _]. intros Heq. rewrite Heq in Hk. simpl in Hk. lia. }
  rewrite (sendms_started Hclear Hm).
  unfold try_except. rewrite bind_run, (send_loop_raises E _ _ msgs k e).
  2:{ destruct Hfail as (Hk & Hbefore & Hat). split; [exact Hk |].
      rewrite started_sends. now split. }
  unfold followup, emit, push, tick. cbn. now rewrite <- !app_assoc.
Qed.

End SendMs.

Lemma send_failure_message_forbidden (e : exn) :
  send_failure_message e = MSG_SEND_FORBIDDEN <-> e = Forbidden.
Proof.
  split; [| now intros ->].
  destruct e as [| detail]; [reflexivity | discriminate].
Qed.

(** C3.  In [sendms], once both cooldown checks have let the invocation
    through: if send [k] of the normalized payloads is the first to raise,
    the payloads before it have been delivered and stay delivered, no
    further send is attempted, neither cooldown map changes, and the user
    is told the permission message exactly when the exception is the
    permission denial, and otherwise the generic message ending in the
    error detail.  If every send returns, all payloads are delivered and
    both scopes are recorded afterwards.  In any run, a change of either
    cooldown map means that every send returned. *)
Theorem sendms_partial_failure (E : Env) (i : Interaction) (m1 : pystr)
    (m2 m3 : option pystr) (w : world) :
  let msgs := build_msgs [Some m1; m2; m3] [] in
  let n := Z.of_nat (length msgs) in
  let w' := snd (sendms E i m1 m2 m3 w) in
  (forall k e,
     cooldowns_clear E i w -> first_failure E w msgs k e ->
     trace w' = trace w
                ++ [Respond MSG_SENDING true]
                ++ sent_events n 0 (firstn k msgs)
                ++ [ChannelSend (nth k msgs []) (Raised e);
                    Followup (send_failure_message e) true]
     /\ delivered (trace w') = delivered (trace w) ++ firstn k msgs
     /\ sends_attempted (trace w') = (sends_attempted (trace w) + k + 1)%nat
     /\ user_last w' = user_last w
     /\ guild_last w' = guild_last w
     /\ (send_failure_message e = MSG_SEND_FORBIDDEN <-> e = Forbidden)
     /\ (forall detail, e = OtherError detail ->
           send_failure_message e = lit "Failed to send messages: " ++ detail))
  /\ (cooldowns_clear E i w -> msgs <> [] -> all_sends_return E w msgs ->
      trace w' = trace w
                 ++ [Respond MSG_SENDING true]
                 ++ sent_events n 0 msgs
                 ++ [Followup (MSG_SENT n) true]
      /\ delivered (trace w') = delivered (trace w) ++ msgs
      /\ user_last w'
         = <[m_id (user i) := clock E (S (S (reads w)))]> (user_last w)
      /\ guild_last w'
         = <[guild_key i := clock E (S (S (S (reads w))))]> (guild_last w))
  /\ (user_last w' <> user_last w \/ guild_last w' <> guild_last w ->
      msgs <> [] /\ all_sends_return E w msgs
      /\ delivered (trace w') = delivered (trace w) ++ msgs).
Proof.
  intros msgs n w'.
  assert (Hsent : cooldowns_clear E i w -> msgs <> [] ->
                  all_sends_return E w msgs ->
                  delivered (trace w') = delivered (trace w) ++ msgs).
  { intros Hclear Hm Hall. subst w'.
    rewrite (sendms_all_sent E i m1 m2 m3 w Hclear Hm Hall). cbn [snd trace].
    rewrite !delivered_app, delivered_sent_events. simpl.
    now rewrite app_nil_r. }
  split; [| split].
  - intros k e Hclear Hfail. subst w'.
    rewrite (sendms_aborted E i m1 m2 m3 w k e Hclear Hfail).
    cbn [snd trace user_last guild_last].
    destruct Hfail as (Hk & _ & _).
    repeat split.
    + rewrite !delivered_app, delivered_sent_events. simpl.
      now rewrite app_nil_r.
    + rewrite !sends_attempted_app, sends_attempted_sent_events.
      rewrite length_firstn. fold msgs.
      change (sends_attempted [Respond MSG_SENDING true]) with 0%nat.
      change (sends_attempted [ChannelSend (nth k msgs []) (Raised e);
                               Followup (send_failure_message e) true])
        with 1%nat.
      lia.
    + apply send_failure_message_forbidden.
    + apply send_failure_message_forbidden.
    + now intros detail ->.
  - intros Hclear Hm Hall. split; [| split; [now apply Hsent |]].
    + subst w'. now rewrite (sendms_all_sent E i m1 m2 m3 w Hclear Hm Hall).
    + subst w'. now rewrite (sendms_all_sent E i m1 m2 m3 w Hclear Hm Hall).
  - intros Hchanged.
    destruct (optint_truthy
                (is_on_user_cooldown (user_last w) (clock E (reads w))
                                     (m_id (user i)))) eqn:Hu.
    { subst w'. rewrite (sendms_user_rejected E i m1 m2 m3 w Hu) in Hchanged.
      cbn in Hchanged. tauto. }
    destruct (optint_truthy
                (is_on_guild_cooldown (guild_last w) (clock E (S (reads w)))
                                      (guild_key i))) eqn:Hg.
    { subst w'. rewrite (sendms_guild_rejected E i m1 m2 m3 w Hu Hg) in Hchanged.
      cbn in Hchanged. tauto. }
    assert (Hclear : cooldowns_clear E i w) by now split.
    destruct msgs as [| c cs] eqn:Hmsgs.
    { subst w'. rewrite (sendms_no_content E i m1 m2 m3 w Hclear Hmsgs) in Hchanged.
      cbn in Hchanged. tauto. }
    rewrite <- Hmsgs in *.
    assert (Hm : msgs <> []) by (rewrite Hmsgs; discriminate).
    destruct (sends_return_or_fail E msgs w) as [Hall | (k & e & Hfail)].
    + auto.
    + subst w'. rewrite (sendms_aborted E i m1 m2 m3 w k e Hclear Hfail) in Hchanged.
      cbn in Hchanged. tauto.
Qed.

Lemma sendms_partial_failure_witness :
  let w' := snd (sendms env0 (in_guild alice guild0) (lit "a")
                        (Some (lit "b")) (Some (lit "c")) world0) in
  delivered (trace w') = [lit "a"]
  /\ sends_attempted (trace w') = 2%nat
  /\ user_last w' = ∅ /\ guild_last w' = ∅.
Proof.
  pose proof (sendms_partial_failure env0 (in_guild alice guild0) (lit "a")
                (Some (lit "b")) (Some (lit "c")) world0) as [H _].
  destruct (H 1%nat Forbidden) as (_ & Hd & Hn & Hu & Hg & _).
  - split; reflexivity.
  - split; [simpl; lia |]. split; [| reflexivity].
    intros j Hj. destruct j; [reflexivity | lia].
  - cbv zeta. split; [exact Hd |]. split; [exact Hn |]. split; [exact Hu | exact Hg].
Defined.

(** C7.  The payload list [sendms] builds from its three optional payloads
    is the specification's normalization: the null and the blank payloads
    are dropped, each retained payload is cut to its first 2000 code points,
    and submission order is kept.  For ["", "hello", None] it is exactly
    ["hello"]; no entry is longer than 2000; a retained payload longer than
    that is represented by exactly its first 2000 code points, and that is
    what the channel receives when the sends return. *)
Theorem build_msgs_normalizes (p1 p2 p3 : option pystr) :
  build_msgs [p1; p2; p3] [] = normalized_spec [p1; p2; p3]
  /\ build_msgs [Some (lit ""); Some (lit "hello"); None] [] = [lit "hello"]
  /\ (forall s, In s (build_msgs [p1; p2; p3] []) -> (length s <= 2000)%nat)
  /\ (forall s, In (Some s) [p1; p2; p3] -> blank s = false ->
        In (firstn 2000 s) (build_msgs [p1; p2; p3] [])
        /\ ((2000 < length s)%nat -> length (firstn 2000 s) = 2000%nat))
  /\ (forall E i m1 w,
        p1 = Some m1 -> cooldowns_clear E i w ->
        normalized_spec [p1; p2; p3] <> [] ->
        all_sends_return E w (normalized_spec [p1; p2; p3]) ->
        delivered (trace (snd (sendms E i m1 p2 p3 w)))
        = delivered (trace w) ++ normalized_spec [p1; p2; p3]).
Proof.
  assert (Heq : build_msgs [p1; p2; p3] [] = normalized_spec [p1; p2; p3])
    by apply build_msgs_spec.
  split; [exact Heq |]. split; [reflexivity |]. rewrite Heq.
  split; [| split].
  - intros s Hin. unfold normalized_spec in Hin.
    apply in_map_iff in Hin as (s0 & <- & _).
    rewrite length_firstn. lia.
  - intros s Hin Hb. split.
    + unfold normalized_spec. apply in_map, filter_In. split.
      * unfold present. apply in_flat_map. exists (Some s). simpl. auto.
      * now rewrite Hb.
    + intros Hlen. rewrite length_firstn. lia.
  - intros E i m1 w -> Hclear Hne Hall.
    rewrite <- Heq in Hne, Hall |- *.
    pose proof (sendms_all_sent E i m1 p2 p3 w Hclear Hne Hall) as Hrun.
    rewrite Hrun. cbn [snd trace].
    rewrite !delivered_app, delivered_sent_events. simpl.
    now rewrite app_nil_r.
Qed.

Lemma build_msgs_normalizes_witness :
  let long := repeat 120%N 2001 in
  In (firstn 2000 long) (build_msgs [Some long; Some (lit "  "); None] [])
  /\ length (firstn 2000 long) = 2000%nat
  /\ delivered (trace (snd (sendms env_ok (in_guild bob guild0) long
                                   (Some (lit "  ")) None world0)))
     = [repeat 120%N 2000].
Proof.
  intros long.
  pose proof (build_msgs_normalizes (Some long) (Some (lit "  ")) None)
    as (_ & _ & _ & Hkept & Hsent).
  destruct (Hkept long) as [Hin Hlen]; [now left | reflexivity |].
  split; [exact Hin |]. split.
  - apply Hlen. vm_compute. reflexivity.
  - apply (Hsent env_ok (in_guild bob guild0) long world0).
    + reflexivity.
    + split; reflexivity.
    + vm_compute. discriminate.
    + intros j Hj. reflexivity.
Defined.

(** ** Guild-less invocations of [sendms] *)

(** A run leaves [guild_last] alone or records its own guild key. *)
Lemma sendms_guild_last_cases (E : Env) (i : Interaction) (m1 : pystr)
    (m2 m3 : option pystr) (w : world) :
  let w' := snd (sendms E i m1 m2 m3 w) in
  guild_last w' = guild_last w
  \/ guild_last w'
     = <[guild_key i := clock E (S (S (S (reads w))))]> (guild_last w).
Proof.
  cbv zeta.
  destruct (optint_truthy
              (is_on_user_cooldown (user_last w) (clock E (reads w))
                                   (m_id (user i)))) eqn:Hu.
  { left. now rewrite (sendms_user_rejected E i m1 m2 m3 w Hu). }
  destruct (optint_truthy
              (is_on_guild_cooldown (guild_last w) (clock E (S (reads w)))
                                    (guild_key i))) eqn:Hg.
  { left. now rewrite (sendms_guild_rejected E i m1 m2 m3 w Hu Hg). }
  assert (Hclear : cooldowns_clear E i w) by now split.
  destruct (build_msgs [Some m1; m2; m3] []) as [| c cs] eqn:Hmsgs.
  { left. now rewrite (sendms_no_content E i m1 m2 m3 w Hclear Hmsgs). }
  assert (Hm : build_msgs [Some m1; m2; m3] [] <> [])
    by (rewrite Hmsgs; discriminate).
  destruct (sends_return_or_fail E (build_msgs [Some m1; m2; m3] []) w)
    as [Hall | (k & e & Hfail)].
  - right. now rewrite (sendms_all_sent E i m1 m2 m3 w Hclear Hm Hall).
  - left. now rewrite (sendms_aborted E i m1 m2 m3 w k e Hclear Hfail).
Qed.

(** A recorded guild action blocks the guild check while at least one full
    second of the window remains. *)
Lemma guild_check_blocks (guild_last : gmap Z Q) (gid : Z) (last now : Q) :
  guild_last !! gid = Some last ->
  (1 <= remaining GUILD_COOLDOWN_SECS now last)%Q ->
  optint_truthy (is_on_guild_cooldown guild_last now gid) = true.
Proof.
  intros Hk Hr. rewrite is_on_guild_cooldown_unfold, Hk.
  change (default 0%Q (Some last)) with last. cbv zeta.
  assert (Hpos : (0 < remaining GUILD_COOLDOWN_SECS now last)%Q).
  { apply Qlt_le_trans with 1%Q; [reflexivity | exact Hr]. }
  rewrite (peek_positive _ Hpos).
  apply Qfloor_pos_iff in Hr. unfold optint_truthy.
  apply negb_true_iff, Z.eqb_neq. lia.
Qed.

(** C9.  A [sendms] invocation outside a guild uses guild key 0: its guild
    check reads the entry of key 0, a run changes [guild_last] at no other
    key, and a fully successful run records its timestamp under key 0.
    Hence after a successful guild-less invocation, a guild-less invocation
    by any user whose own cooldown is clear is turned away by the guild
    check while at least one full second of the guild window remains. *)
Theorem sendms_guildless_shared_key (E : Env) (i : Interaction) (m1 : pystr)
    (m2 m3 : option pystr) (w : world) :
  guild_id i = None ->
  let msgs := build_msgs [Some m1; m2; m3] [] in
  let w' := snd (sendms E i m1 m2 m3 w) in
  guild_key i = 0
  /\ (forall k, k <> 0 -> guild_last w' !! k = guild_last w !! k)
  /\ (optint_truthy
        (is_on_user_cooldown (user_last w) (clock E (reads w)) (m_id (user i)))
      = false ->
      optint_truthy (is_on_guild_cooldown (guild_last w) (clock E (S (reads w))) 0)
      = true ->
      trace w' = trace w ++ [Respond MSG_GUILD_COOLDOWN true])
  /\ (cooldowns_clear E i w -> msgs <> [] -> all_sends_return E w msgs ->
      guild_last w' !! 0 = Some (clock E (S (S (S (reads w)))))
      /\ forall i2 n1 n2 n3,
           guild_id i2 = None ->
           optint_truthy
             (is_on_user_cooldown (user_last w') (clock E (reads w'))
                                  (m_id (user i2))) = false ->
           (1 <= remaining GUILD_COOLDOWN_SECS (clock E (S (reads w')))
                           (clock E (S (S (S (reads w))))))%Q ->
           let w'' := snd (sendms E i2 n1 n2 n3 w') in
           trace w'' = trace w' ++ [Respond MSG_GUILD_COOLDOWN true]
           /\ delivered (trace w'') = delivered (trace w')).
Proof.
  intros Hnone msgs w'.
  assert (Hkey : guild_key i = 0) by (unfold guild_key; now rewrite Hnone).
  split; [exact Hkey |]. split; [| split].
  - intros k Hk.
    destruct (sendms_guild_last_cases E i m1 m2 m3 w) as [Heq | Heq];
      fold w' in Heq; rewrite Heq; [reflexivity |].
    rewrite Hkey. now apply lookup_insert_ne.
  - intros Hu Hg. subst w'. rewrite <- Hkey in Hg.
    now rewrite (sendms_guild_rejected E i m1 m2 m3 w Hu Hg).
  - intros Hclear Hm Hall.
    assert (Hrec : guild_last w' !! 0 = Some (clock E (S (S (S (reads w)))))).
    { subst w'. rewrite (sendms_all_sent E i m1 m2 m3 w Hclear Hm Hall).
      cbn [snd guild_last]. rewrite Hkey. apply lookup_insert_eq. }
    split; [exact Hrec |].
    intros i2 n1 n2 n3 Hnone2 Hu2 Hr w''.
    assert (Hkey2 : guild_key i2 = 0) by (unfold guild_key; now rewrite Hnone2).
    assert (Hg2 : optint_truthy
                    (is_on_guild_cooldown (guild_last w') (clock E (S (reads w')))
                                          (guild_key i2)) = true).
    { rewrite Hkey2. now apply (guild_check_blocks _ _ _ _ Hrec). }
    subst w''. rewrite (sendms_guild_rejected E i2 n1 n2 n3 w' Hu2 Hg2).
    cbn [snd trace push tick]. split; [reflexivity |].
    rewrite delivered_app. simpl. now rewrite app_nil_r.
Qed.

Lemma sendms_guildless_shared_key_witness :
  let w' := snd (sendms env_ok (direct_message bob) (lit "hi") None None world0) in
  guild_last w' !! 0 = Some (inject_Z 103)
  /\ delivered
       (trace (snd (sendms env_ok (direct_message dave) (lit "yo") None None w')))
     = [lit "hi"].
Proof.
  intros w'.
  pose proof (sendms_guildless_shared_key env_ok (direct_message bob) (lit "hi")
                None None world0 eq_refl) as (_ & _ & _ & H).
  destruct H as [Hrec Hblock].
  - split; reflexivity.
  - vm_compute. discriminate.
  - intros j Hj. reflexivity.
  - split; [exact Hrec |].
    destruct (Hblock (direct_message dave) (lit "yo") None None) as [_ Hd].
    + reflexivity.
    + reflexivity.
    + vm_compute. discriminate.
    + exact Hd.
Defined.

(** ** The rename loop of [changenick] *)

(** A split accounts for every target once: the names in the two sequences
    are, up to order, the names of the targets. *)
Lemma splits_permutation (ts : list Member) (s : list pystr)
    (f : list (pystr * pystr)) :
  splits ts s f ->
  Permutation (List.map display_name ts) (s ++ List.map fst f).
Proof.
  induction 1 as [| m ts s f _ IH | m reason ts s f _ IH]; simpl.
  - constructor.
  - now constructor.
  - now apply Permutation_cons_app.
Qed.

Lemma splits_length (ts : list Member) (s : list pystr)
    (f : list (pystr * pystr)) :
  splits ts s f -> (length s + length f = length ts)%nat.
Proof. induction 1; simpl; lia. Qed.

Lemma map_injective_on_nodup {A B} (h : A -> B) (l : list A) (a b : A) :
  List.NoDup (List.map h l) -> In a l -> In b l -> h a = h b -> a = b.
Proof.
  induction l as [| x l IH]; simpl; [tauto |].
  intros Hnd Ha Hb Heq. inversion Hnd as [| y ys Hnotin Hnd']; subst.
  destruct Ha as [-> | Ha], Hb as [-> | Hb]; auto.
  - exfalso. apply Hnotin. rewrite Heq. now apply in_map.
  - exfalso. apply Hnotin. rewrite <- Heq. now apply in_map.
Qed.

Section RenameLoop.

Variables (E : Env) (g : Guild) (bot_member invoker : Member) (nickname : pystr).

Abbreviation loop := (rename_loop E g bot_member invoker nickname).
Abbreviation edit_of m r := (MemberEdit (m_id m) nickname (audit_reason invoker) r).

(** One iteration of the loop, by what happens to the target. *)
Lemma rename_loop_cons (m : Member) (rest : list Member) (success : list pystr)
    (failed : list (pystr * pystr)) (w : world) :
  loop (m :: rest) success failed w =
  if m_id m =? owner_id g then
    loop rest success (failed ++ [(display_name m, REASON_OWNER)]) w
  else if top_role_position bot_member <=? top_role_position m then
    loop rest success (failed ++ [(display_name m, REASON_HIERARCHY)]) w
  else
    let r := edit_outcome E (length (List.filter is_edit (trace w))) (m_id m)
                          nickname (audit_reason invoker) in
    match r with
    | Returned =>
        loop rest (success ++ [display_name m]) failed
             (push w [edit_of m r; Sleep (1 # 4)])
    | Raised Forbidden =>
        loop rest success (failed ++ [(display_name m, REASON_FORBIDDEN)])
             (push w [edit_of m r; Sleep (1 # 4)])
    | Raised (OtherError detail) =>
        loop rest success (failed ++ [(display_name m, REASON_ERROR detail)])
             (push w [edit_of m r; Sleep (1 # 4)])
    end.
Proof.
  simpl rename_loop.
  destruct (m_id m =? owner_id g); [reflexivity |].
  destruct (top_role_position bot_member <=? top_role_position m);
    [reflexivity |].
  rewrite bind_run. unfold try_except. rewrite bind_run.
  unfold member_edit. cbv beta zeta.
  destruct (edit_outcome E _ (m_id m) nickname (audit_reason invoker))
    as [| [| detail]];
    unfold mbind, M_bind, mret, M_ret, raise, sleep, emit; cbv beta iota;
    now rewrite push_push.
Qed.

(** The loop always runs to its end; its two lists extend the ones it was
    entered with by a split of the targets, the owner and the members the
    bot does not outrank are in [failed] under their fixed reasons, and
    [edit] was called on the other targets, in order, and on nothing else. *)
Lemma rename_loop_run (targets : list Member) (success : list pystr)
    (failed : list (pystr * pystr)) (w : world) :
  exists s f evs,
    loop targets success failed w = (inr (success ++ s, failed ++ f), push w evs)
    /\ splits targets s f
    /\ edited evs = List.map m_id (List.filter (editable g bot_member) targets)
    /\ (forall m, In m targets -> m_id m = owner_id g ->
          In (display_name m, REASON_OWNER) f)
    /\ (forall m, In m targets -> m_id m <> owner_id g ->
          top_role_position bot_member <= top_role_position m ->
          In (display_name m, REASON_HIERARCHY) f).
Proof.
  revert success failed w.
  induction targets as [| m rest IH]; intros success failed w.
  - exists [], [], []. simpl. rewrite push_nil, !app_nil_r.
    repeat split; try constructor; intros m [].
  - rewrite rename_loop_cons. unfold editable at 1. simpl List.filter.
    destruct (m_id m =? owner_id g) eqn:Hown.
    { destruct (IH success (failed ++ [(display_name m, REASON_OWNER)]) w)
        as (s & f & evs & Hrun & Hsplit & Hed & Ho & Hh).
      exists s, ((display_name m, REASON_OWNER) :: f), evs.
      rewrite Hrun, <- app_assoc. simpl.
      repeat split; [now constructor | exact Hed | |].
      - intros m' [<- | Hin] Hm'; [now left | right; auto].
      - intros m' [<- | Hin] Hm' Hpos; [| right; auto].
        apply Z.eqb_eq in Hown. contradiction. }
    destruct (top_role_position bot_member <=? top_role_position m) eqn:Hpos.
    { destruct (IH success (failed ++ [(display_name m, REASON_HIERARCHY)]) w)
        as (s & f & evs & Hrun & Hsplit & Hed & Ho & Hh).
      exists s, ((display_name m, REASON_HIERARCHY) :: f), evs.
      rewrite Hrun, <- app_assoc. simpl.
      repeat split; [now constructor | exact Hed | |].
      - intros m' [<- | Hin] Hm'; [| right; auto].
        apply Z.eqb_neq in Hown. contradiction.
      - intros m' [<- | Hin] Hm' Hle; [now left | right; auto]. }
    apply Z.eqb_neq in Hown. apply Z.leb_gt in Hpos. cbv zeta. simpl negb.
    cbn [andb].
    destruct (edit_outcome E _ (m_id m) nickname (audit_reason invoker))
      as [| [| detail]] eqn:Hcall.
    + destruct (IH (success ++ [display_name m]) failed
                   (push w [edit_of m Returned; Sleep (1 # 4)]))
        as (s & f & evs & Hrun & Hsplit & Hed & Ho & Hh).
      exists (display_name m :: s), f,
        ([edit_of m Returned; Sleep (1 # 4)] ++ evs).
      rewrite Hrun, push_push, <- app_assoc. simpl.
      repeat split; [now constructor | now rewrite Hed | |].
      * intros m' [<- | Hin] Hm'; [contradiction | auto].
      * intros m' [<- | Hin] Hm' Hle; [lia | auto].
    + destruct (IH success (failed ++ [(display_name m, REASON_FORBIDDEN)])
                   (push w [edit_of m (Raised Forbidden); Sleep (1 # 4)]))
        as (s & f & evs & Hrun & Hsplit & Hed & Ho & Hh).
      exists s, ((display_name m, REASON_FORBIDDEN) :: f),
        ([edit_of m (Raised Forbidden); Sleep (1 # 4)] ++ evs).
      rewrite Hrun, push_push, <- app_assoc. simpl.
      repeat split; [now constructor | now rewrite Hed | |].
      * intros m' [<- | Hin] Hm'; [contradiction | right; auto].
      * intros m' [<- | Hin] Hm' Hle; [lia | right; auto].
    + destruct (IH success (failed ++ [(display_name m, REASON_ERROR detail)])
                   (push w [edit_of m (Raised (OtherError detail)); Sleep (1 # 4)]))
        as (s & f & evs & Hrun & Hsplit & Hed & Ho & Hh).
      exists s, ((display_name m, REASON_ERROR detail) :: f),
        ([edit_of m (Raised (OtherError detail)); Sleep (1 # 4)] ++ evs).
      rewrite Hrun, push_push, <- app_assoc. simpl.
      repeat split; [now constructor | now rewrite Hed | |].
      * intros m' [<- | Hin] Hm'; [contradiction | right; auto].
      * intros m' [<- | Hin] Hm' Hle; [lia | right; auto].
Qed.

End RenameLoop.

(** ** Runs of [changenick] *)

Section ChangeNick.

Variables (E : Env) (i : Interaction) (nickname : pystr).
Variables (member : option Member) (change_many : bool).

(** Past its checks, the command defers, runs the loop over the resolved
    targets and reports. *)
Lemma changenick_batch (g : Guild) (bot_member : Member)
    (targets : list Member) (w : world) :
  reaches_batch E i member change_many g bot_member targets ->
  changenick E i nickname member change_many w
  = (r ← rename_loop E g bot_member (user i) nickname targets [] [];
     followup (summary r) false) (push w [Defer]).
Proof.
  intros (Hg & Hperm & Hbot & Hbotperm & Htargets).
  unfold changenick. rewrite Hg, Hperm, Hbot, Hbotperm. simpl negb. cbv iota.
  rewrite bind_run. unfold emit. cbv beta iota zeta.
  destruct change_many; [now subst targets |].
  destruct member as [m |]; [now subst targets | contradiction].
Qed.

(** The whole run, with the two lists the report is built from. *)
Lemma changenick_accounts (g : Guild) (bot_member : Member)
    (targets : list Member) (w : world) :
  reaches_batch E i member change_many g bot_member targets ->
  exists success failed evs,
    changenick E i nickname member change_many w
    = (inr tt, push w ([Defer] ++ evs
                       ++ [Followup (summary (success, failed)) false]))
    /\ rename_loop E g bot_member (user i) nickname targets [] []
                   (push w [Defer])
       = (inr (success, failed), push (push w [Defer]) evs)
    /\ splits targets success failed
    /\ edited evs = List.map m_id (List.filter (editable g bot_member) targets)
    /\ (forall m, In m targets -> m_id m = owner_id g ->
          In (display_name m, REASON_OWNER) failed)
    /\ (forall m, In m targets -> m_id m <> owner_id g ->
          top_role_position bot_member <= top_role_position m ->
          In (display_name m, REASON_HIERARCHY) failed).
Proof.
  intros Hreach. rewrite (changenick_batch g bot_member targets w Hreach).
  destruct (rename_loop_run E g bot_member (user i) nickname targets [] []
                            (push w [Defer]))
    as (s & f & evs & Hrun & Hsplit & Hed & Ho & Hh).
  simpl in Hrun. exists s, f, evs.
  rewrite bind_run, Hrun. unfold followup, emit. rewrite !push_push.
  repeat split; assumption.
Qed.

End ChangeNick.

(** C4.  Whenever [changenick] gets to process a target list, the [success]
    and [failed] lists it reports from split that list: taking the targets
    in order, each contributes the next entry of exactly one of the two.
    So the names in the two lists together are the targets' names, each as
    often as among the targets, and the two lengths add up to the number of
    targets. *)
Theorem changenick_partitions (E : Env) (i : Interaction) (nickname : pystr)
    (member : option Member) (change_many : bool) (g : Guild)
    (bot_member : Member) (targets : list Member) (w : world) :
  reaches_batch E i member change_many g bot_member targets ->
  exists success failed evs,
    changenick E i nickname member change_many w
    = (inr tt, push w ([Defer] ++ evs
                       ++ [Followup (summary (success, failed)) false]))
    /\ rename_loop E g bot_member (user i) nickname targets [] []
                   (push w [Defer])
       = (inr (success, failed), push (push w [Defer]) evs)
    /\ splits targets success failed
    /\ Permutation (List.map display_name targets)
                   (success ++ List.map fst failed)
    /\ (length success + length failed = length targets)%nat.
Proof.
  intros Hreach.
  destruct (changenick_accounts E i nickname member change_many g bot_member
                                targets w Hreach)
    as (success & failed & evs & Hrun & Hloop & Hsplit & _).
  exists success, failed, evs.
  repeat split; auto using splits_permutation, splits_length.
Qed.

Lemma changenick_partitions_witness :
  exists success failed,
    fst (rename_loop env0 guild0 the_bot alice (lit "x")
                     (many_targets env0 guild0) [] [] (push world0 [Defer]))
    = inr (success, failed)
    /\ splits (many_targets env0 guild0) success failed
    /\ success = [lit "bob"]
    /\ List.map fst failed = [lit "alice"; lit "carol"; lit "dave"; lit "erin"].
Proof.
  destruct (changenick_partitions env0 (in_guild alice guild0) (lit "x") None true
              guild0 the_bot (many_targets env0 guild0) world0)
    as (success & failed & evs & _ & Hloop & Hsplit & _).
  - repeat split; reflexivity.
  - exists success, failed.
    split; [exact (f_equal fst Hloop) |]. split; [exact Hsplit |].
    vm_compute in Hloop. injection Hloop as <- <- _. split; reflexivity.
Defined.

Lemma many_targets_firstn (E : Env) (g : Guild) :
  many_targets E g
  = firstn MAX_CHANGE (List.filter (eligible E) (members g)).
Proof.
  unfold many_targets. fold (eligible E).
  destruct (MAX_CHANGE <? length (List.filter (eligible E) (members g)))%nat
    eqn:Hlen; [reflexivity |].
  apply Nat.ltb_ge in Hlen. symmetry. now apply firstn_all2.
Qed.

(** C5.  With "change many" true and the three checks passed, the targets
    are the guild's member list without the bots and without the bot
    itself, cut to its first 50 entries in listing order.  The reported
    lists split exactly these targets and [edit] is called on none but
    them, so a member beyond the cap is neither attempted nor reported.
    With 51 eligible members the targets are the first 50 of them. *)
Theorem change_many_targets (E : Env) (i : Interaction) (nickname : pystr)
    (member : option Member) (g : Guild) (bot_member : Member) (w : world) :
  guild i = Some g ->
  (manage_nicknames (user i) || (m_id (user i) =? owner_id g)) = true ->
  get_member g (bot_user_id E) = Some bot_member ->
  manage_nicknames bot_member = true ->
  let eligible_members := List.filter (eligible E) (members g) in
  let targets := firstn 50 eligible_members in
  many_targets E g = targets
  /\ (length targets <= 50)%nat
  /\ (exists success failed evs,
        changenick E i nickname member true w
        = (inr tt, push w ([Defer] ++ evs
                           ++ [Followup (summary (success, failed)) false]))
        /\ splits targets success failed
        /\ incl (edited evs) (List.map m_id targets))
  /\ (length eligible_members = 51%nat ->
      length targets = 50%nat /\ targets = removelast eligible_members).
Proof.
  intros Hg Hperm Hbot Hbotperm eligible_members targets.
  assert (Htargets : many_targets E g = targets) by apply many_targets_firstn.
  split; [exact Htargets |]. split; [apply firstn_le_length |]. split.
  - destruct (changenick_accounts E i nickname member true g bot_member
                                  targets w)
      as (success & failed & evs & Hrun & _ & Hsplit & Hed & _).
    { repeat split; auto. }
    exists success, failed, evs. repeat split; auto.
    rewrite Hed. intros x Hx. apply in_map_iff in Hx as (m & <- & Hm).
    apply filter_In in Hm as [Hm _]. now apply in_map.
  - intros Hlen. split.
    + unfold targets. rewrite length_firstn, Hlen. reflexivity.
    + unfold targets. rewrite removelast_firstn_len, Hlen. reflexivity.
Qed.

Lemma change_many_targets_witness :
  length (many_targets env_ok guild51) = 50%nat
  /\ many_targets env_ok guild51 = firstn 50 crowd.
Proof.
  destruct (change_many_targets env_ok (in_guild alice guild51) (lit "x") None
              guild51 the_bot world0 eq_refl eq_refl eq_refl eq_refl)
    as (Htargets & _ & _ & Hcap).
  destruct (Hcap eq_refl) as [Hlen _].
  split.
  - rewrite Htargets. exact Hlen.
  - rewrite Htargets. reflexivity.
Defined.

(** C6, as stated, fails on the reason texts: the owner is recorded under
    "Server owner (cannot change)" and not under "owner, cannot change";
    a member the bot does not outrank is recorded under "Role is equal or
    higher than bot" and not under "role equal or higher than bot". *)
Lemma hard_rule_reason_texts_differ :
  ~ (forall success failed w',
       rename_loop env0 guild0 the_bot alice (lit "x") [alice] [] [] world0
       = (inr (success, failed), w') ->
       In (display_name alice, lit "owner, cannot change") failed)
  /\ ~ (forall success failed w',
          rename_loop env0 guild0 the_bot alice (lit "x") [carol] [] [] world0
          = (inr (success, failed), w') ->
          In (display_name carol, lit "role equal or higher than bot") failed).
Proof.
  split; intros H.
  - specialize (H [] [(lit "alice", REASON_OWNER)] world0 eq_refl).
    destruct H as [H | []]. vm_compute in H. discriminate.
  - specialize (H [] [(lit "carol", REASON_HIERARCHY)] world0 eq_refl).
    destruct H as [H | []]. vm_compute in H. discriminate.
Qed.

(** C6 (amended).  Whenever [changenick] processes a target list: a target
    that is the guild owner is in [failed] with the reason
    "Server owner (cannot change)"; any other target whose top role is not
    strictly below the bot's is in [failed] with the reason
    "Role is equal or higher than bot"; and [edit] is called exactly on the
    remaining targets, in order, so never on the owner and, the targets
    having distinct ids, never on a member the bot does not outrank. *)
Theorem hard_rules_recorded (E : Env) (i : Interaction) (nickname : pystr)
    (member : option Member) (change_many : bool) (g : Guild)
    (bot_member : Member) (targets : list Member) (w : world) :
  reaches_batch E i member change_many g bot_member targets ->
  exists success failed evs,
    changenick E i nickname member change_many w
    = (inr tt, push w ([Defer] ++ evs
                       ++ [Followup (summary (success, failed)) false]))
    /\ rename_loop E g bot_member (user i) nickname targets [] []
                   (push w [Defer])
       = (inr (success, failed), push (push w [Defer]) evs)
    /\ (forall m, In m targets -> m_id m = owner_id g ->
          In (display_name m, lit "Server owner (cannot change)") failed)
    /\ (forall m, In m targets -> m_id m <> owner_id g ->
          top_role_position bot_member <= top_role_position m ->
          In (display_name m, lit "Role is equal or higher than bot") failed)
    /\ edited evs = List.map m_id (List.filter (editable g bot_member) targets)
    /\ (forall m, In m targets -> m_id m = owner_id g ->
          ~ In (m_id m) (edited evs))
    /\ (List.NoDup (List.map m_id targets) ->
        forall m, In m targets ->
          top_role_position bot_member <= top_role_position m ->
          ~ In (m_id m) (edited evs)).
Proof.
  intros Hreach.
  destruct (changenick_accounts E i nickname member change_many g bot_member
                                targets w Hreach)
    as (success & failed & evs & Hrun & Hloop & _ & Hed & Ho & Hh).
  exists success, failed, evs.
  split; [exact Hrun |]. split; [exact Hloop |]. split; [exact Ho |].
  split; [exact Hh |]. split; [exact Hed |]. split.
  - intros m _ Hown Hin. rewrite Hed in Hin.
    apply in_map_iff in Hin as (m' & Hid & Hm').
    apply filter_In in Hm' as [_ Hm']. unfold editable in Hm'.
    apply andb_prop in Hm' as [Hm' _]. apply negb_true_iff, Z.eqb_neq in Hm'.
    congruence.
  - intros Hnd m Hm Hpos Hin. rewrite Hed in Hin.
    apply in_map_iff in Hin as (m' & Hid & Hm').
    apply filter_In in Hm' as [Hin' Hm'].
    assert (m' = m) as -> by now apply (map_injective_on_nodup m_id targets).
    unfold editable in Hm'. apply andb_prop in Hm' as [_ Hm'].
    apply negb_true_iff, Z.leb_gt in Hm'. lia.
Qed.

Lemma hard_rules_recorded_witness :
  exists success failed evs,
    rename_loop env0 guild0 the_bot alice (lit "x")
                (many_targets env0 guild0) [] [] (push world0 [Defer])
    = (inr (success, failed), push (push world0 [Defer]) evs)
    /\ In (lit "alice", lit "Server owner (cannot change)") failed
    /\ In (lit "carol", lit "Role is equal or higher than bot") failed
    /\ edited evs = [2; 4; 5]
    /\ ~ In 1 (edited evs) /\ ~ In 3 (edited evs).
Proof.
  destruct (hard_rules_recorded env0 (in_guild alice guild0) (lit "x") None true
              guild0 the_bot (many_targets env0 guild0) world0)
    as (success & failed & evs & _ & Hloop & Ho & Hh & Hed & Hno & Hnh).
  - repeat split; reflexivity.
  - exists success, failed, evs.
    split; [exact Hloop |].
    split; [apply (Ho alice); [vm_compute; auto | reflexivity] |].
    split; [apply (Hh carol); [vm_compute; auto | discriminate | discriminate] |].
    split; [exact Hed |].
    split; [apply (Hno alice); [vm_compute; auto | reflexivity] |].
    apply (fun Hnd => Hnh Hnd carol); [| vm_compute; auto | discriminate].
    vm_compute. repeat constructor; simpl; intuition discriminate.
Defined.

(** C8.  [changenick] answers with one ephemeral message and does nothing
    else (no deferral, no [edit], no change of any state) when it is used
    outside a guild, when the invoker neither may manage nicknames nor owns
    the guild, and when the bot's own member is missing from the guild or
    may not manage nicknames. *)
Theorem changenick_fails_fast (E : Env) (i : Interaction) (nickname : pystr)
    (member : option Member) (change_many : bool) (w : world) :
  let run := changenick E i nickname member change_many w in
  (guild i = None ->
   run = (inr tt, push w [Respond MSG_NEED_GUILD true]))
  /\ (forall g,
        guild i = Some g ->
        manage_nicknames (user i) = false -> m_id (user i) <> owner_id g ->
        run = (inr tt, push w [Respond MSG_NEED_PERMISSION true]))
  /\ (forall g,
        guild i = Some g ->
        (get_member g (bot_user_id E) = None
         \/ exists bot_member,
              get_member g (bot_user_id E) = Some bot_member
              /\ manage_nicknames bot_member = false) ->
        (exists msg, run = (inr tt, push w [Respond msg true]))
        /\ ((manage_nicknames (user i) || (m_id (user i) =? owner_id g)) = true ->
            run = (inr tt, push w [Respond MSG_BOT_NEEDS_PERMISSION true])))
  /\ (forall msg, run = (inr tt, push w [Respond msg true]) ->
        edited (trace (snd run)) = edited (trace w)
        /\ user_last (snd run) = user_last w
        /\ guild_last (snd run) = guild_last w).
Proof.
  intros run. subst run. unfold changenick. split; [| split; [| split]].
  - now intros ->.
  - intros g -> Hperm Hown. apply Z.eqb_neq in Hown. now rewrite Hperm, Hown.
  - intros g -> Hbot.
    destruct (manage_nicknames (user i) || (m_id (user i) =? owner_id g));
      simpl negb; cbv iota.
    + destruct Hbot as [-> | (bot_member & -> & ->)]; simpl; eauto.
    + split; [eauto | discriminate].
  - intros msg ->. cbn [snd push trace user_last guild_last].
    rewrite edited_app. simpl. now rewrite app_nil_r.
Qed.

Lemma changenick_fails_fast_witness :
  trace (snd (changenick env0 (direct_message alice) (lit "x") (Some bob) false
                         world0))
  = [Respond MSG_NEED_GUILD true]
  /\ trace (snd (changenick env0 (in_guild bob guild0) (lit "x") (Some dave) false
                            world0))
     = [Respond MSG_NEED_PERMISSION true]
  /\ trace (snd (changenick env0 (in_guild alice guild_weak_bot) (lit "x") None
                            true world0))
     = [Respond MSG_BOT_NEEDS_PERMISSION true].
Proof.
  split; [| split].
  - pose proof (changenick_fails_fast env0 (direct_message alice) (lit "x")
                  (Some bob) false world0) as (H & _).
    now rewrite (H eq_refl).
  - pose proof (changenick_fails_fast env0 (in_guild bob guild0) (lit "x")
                  (Some dave) false world0) as (_ & H & _).
    rewrite (H guild0 eq_refl eq_refl); [reflexivity | discriminate].
  - pose proof (changenick_fails_fast env0 (in_guild alice guild_weak_bot)
                  (lit "x") None true world0) as (_ & _ & H & _).
    destruct (H guild_weak_bot eq_refl) as [_ Hmsg].
    + right. eexists. split; reflexivity.
    + now rewrite (Hmsg eq_refl).
Defined.

(** C10.  With "change many" true, [changenick] never looks at its member
    argument: two invocations that differ in nothing else return the same
    and leave the same world, hence make the same calls with the same
    outcomes and send the same report; and they resolve to the same
    targets. *)
Theorem changenick_many_ignores_member (E : Env) (i : Interaction)
    (nickname : pystr) (member member' : option Member) (w : world) :
  changenick E i nickname member true w = changenick E i nickname member' true w
  /\ forall g bot_member targets,
       reaches_batch E i member true g bot_member targets
       <-> reaches_batch E i member' true g bot_member targets.
Proof.
  split.
  - unfold changenick. destruct (guild i) as [g |]; [| reflexivity].
    destruct (negb _); [reflexivity |].
    destruct (get_member g (bot_user_id E)) as [bot_member |]; [| reflexivity].
    destruct (negb _); reflexivity.
  - intros g bot_member targets. unfold reaches_batch. reflexivity.
Qed.

Lemma changenick_many_ignores_member_witness :
  changenick env0 (in_guild alice guild0) (lit "x") (Some bob) true world0
  = changenick env0 (in_guild alice guild0) (lit "x") None true world0.
Proof.
  exact (proj1 (changenick_many_ignores_member env0 (in_guild alice guild0)
                  (lit "x") (Some bob) None world0)).
Defined.

(** ** Further properties of the cooldown tracker *)

Lemma peek_value (r : Q) :
  default 0 (if Qpositive r then Some (py_int r) else None)
  = Z.max 0 (Qfloor r).
Proof.
  destruct (Qpositive r) eqn:Hr; simpl.
  - apply Qpositive_true in Hr.
    rewrite py_int_floor by now apply Qlt_le_weak.
    pose proof (Qfloor_nonneg r (Qlt_le_weak _ _ Hr)). lia.
  - apply Qpositive_false in Hr. apply Qfloor_resp_le in Hr.
    change (Qfloor 0) with 0 in Hr. lia.
Qed.

(** X1.  Recording then checking: once a scope key has been stamped with
    time [t], a check at that same clock reading reports the full window;
    a check made while at least one full second of the window remains
    reports a wait of at least 1, which the callers take for "on cooldown";
    and a check made when the window has elapsed reports none.  For the
    user check (20) and the guild check (5). *)
Theorem record_then_check (last_map : gmap Z Q) (key : Z) (t now : Q) :
  is_on_user_cooldown (<[key := t]> last_map) t key = Some USER_COOLDOWN_SECS
  /\ is_on_guild_cooldown (<[key := t]> last_map) t key
     = Some GUILD_COOLDOWN_SECS
  /\ ((now - t <= inject_Z (USER_COOLDOWN_SECS - 1))%Q ->
      exists n,
        is_on_user_cooldown (<[key := t]> last_map) now key = Some n
        /\ 1 <= n /\ optint_truthy (Some n) = true)
  /\ ((inject_Z USER_COOLDOWN_SECS <= now - t)%Q ->
      is_on_user_cooldown (<[key := t]> last_map) now key = None)
  /\ ((now - t <= inject_Z (GUILD_COOLDOWN_SECS - 1))%Q ->
      exists n,
        is_on_guild_cooldown (<[key := t]> last_map) now key = Some n
        /\ 1 <= n /\ optint_truthy (Some n) = true)
  /\ ((inject_Z GUILD_COOLDOWN_SECS <= now - t)%Q ->
      is_on_guild_cooldown (<[key := t]> last_map) now key = None).
Proof.
  rewrite !is_on_user_cooldown_unfold, !is_on_guild_cooldown_unfold.
  rewrite !lookup_insert_eq. simpl default. cbv zeta.
  assert (Hnow : forall window, (remaining window t t == inject_Z window)%Q).
  { intros window. unfold remaining. ring. }
  assert (Hblock : forall window,
             (now - t <= inject_Z (window - 1))%Q ->
             exists n,
               (if Qpositive (remaining window now t)
                then Some (py_int (remaining window now t)) else None) = Some n
               /\ 1 <= n /\ optint_truthy (Some n) = true).
  { intros window Hd.
    assert (Hr : (1 <= remaining window now t)%Q).
    { unfold remaining. unfold Z.sub in Hd. rewrite inject_Z_plus in Hd.
      change (inject_Z (- (1))) with (- (1))%Q in Hd. lra. }
    exists (Qfloor (remaining window now t)).
    rewrite peek_positive by lra. apply Qfloor_pos_iff in Hr.
    split; [reflexivity |]. split; [lia |].
    unfold optint_truthy. apply negb_true_iff, Z.eqb_neq. lia. }
  assert (Hdone : forall window,
             (inject_Z window <= now - t)%Q ->
             (if Qpositive (remaining window now t)
              then Some (py_int (remaining window now t)) else None) = None).
  { intros window Hd. apply peek_expired. unfold remaining. lra. }
  repeat split.
  - rewrite peek_positive by (rewrite Hnow; reflexivity).
    rewrite Hnow. now rewrite Qfloor_Z.
  - rewrite peek_positive by (rewrite Hnow; reflexivity).
    rewrite Hnow. now rewrite Qfloor_Z.
  - apply Hblock.
  - apply Hdone.
  - apply Hblock.
  - apply Hdone.
Qed.

Lemma record_then_check_witness :
  (exists n, is_on_user_cooldown (<[7 := 100%Q]> ∅) (235 # 2) 7 = Some n
             /\ 1 <= n)
  /\ is_on_guild_cooldown (<[7 := 100%Q]> ∅) 105%Q 7 = None.
Proof.
  pose proof (record_then_check ∅ 7 100%Q (235 # 2)) as (_ & _ & H & _).
  pose proof (record_then_check ∅ 7 100%Q 105%Q) as (_ & _ & _ & _ & _ & H').
  split.
  - destruct H as (n & Hn & Hpos & _); [discriminate |]. now exists n.
  - apply H'. discriminate.
Defined.

(** X2.  Scope keys are independent: stamping one key changes the result of
    neither check at any other key. *)
Theorem check_ignores_other_keys (last_map : gmap Z Q) (key other : Z)
    (t now : Q) :
  other <> key ->
  is_on_user_cooldown (<[other := t]> last_map) now key
  = is_on_user_cooldown last_map now key
  /\ is_on_guild_cooldown (<[other := t]> last_map) now key
     = is_on_guild_cooldown last_map now key.
Proof.
  intros Hne. rewrite !is_on_user_cooldown_unfold, !is_on_guild_cooldown_unfold.
  now rewrite lookup_insert_ne.
Qed.

Lemma check_ignores_other_keys_witness :
  is_on_user_cooldown (<[8 := 119%Q]> {[ 7 := 100%Q ]}) 119%Q 7 = Some 1.
Proof.
  pose proof (check_ignores_other_keys {[ 7 := 100%Q ]} 7 8 119%Q 119%Q) as [H _];
    [discriminate |].
  rewrite H. reflexivity.
Defined.

(** X3.  The wait a check reports (0 standing for none) never grows as the
    clock advances, and when the stamp it reads is not in the future the
    wait lies between 0 and the window. *)
Theorem reported_wait_bounded (last_map : gmap Z Q) (key : Z) (now later : Q) :
  (now <= later)%Q ->
  default 0 (is_on_user_cooldown last_map later key)
  <= default 0 (is_on_user_cooldown last_map now key)
  /\ default 0 (is_on_guild_cooldown last_map later key)
     <= default 0 (is_on_guild_cooldown last_map now key)
  /\ ((default 0%Q (last_map !! key) <= now)%Q ->
      0 <= default 0 (is_on_user_cooldown last_map now key) <= USER_COOLDOWN_SECS
      /\ 0 <= default 0 (is_on_guild_cooldown last_map now key)
         <= GUILD_COOLDOWN_SECS).
Proof.
  intros Hle. rewrite !is_on_user_cooldown_unfold, !is_on_guild_cooldown_unfold.
  cbv zeta. rewrite !peek_value.
  set (last := default 0%Q (last_map !! key)).
  assert (Hmono : forall window,
             Qfloor (remaining window later last)
             <= Qfloor (remaining window now last)).
  { intros window. apply Qfloor_resp_le. unfold remaining. lra. }
  split; [pose proof (Hmono USER_COOLDOWN_SECS); lia |].
  split; [pose proof (Hmono GUILD_COOLDOWN_SECS); lia |].
  intros Hpast.
  assert (Hcap : forall window,
             Qfloor (remaining window now last) <= window).
  { intros window. rewrite <- (Qfloor_Z window) at 2.
    apply Qfloor_resp_le. unfold remaining. lra. }
  pose proof (Hcap USER_COOLDOWN_SECS). pose proof (Hcap GUILD_COOLDOWN_SECS).
  unfold USER_COOLDOWN_SECS, GUILD_COOLDOWN_SECS in *. lia.
Qed.

Lemma reported_wait_bounded_witness :
  default 0 (is_on_user_cooldown {[ 7 := 100%Q ]} 110%Q 7)
  <= default 0 (is_on_user_cooldown {[ 7 := 100%Q ]} 105%Q 7)
  /\ 0 <= default 0 (is_on_user_cooldown {[ 7 := 100%Q ]} 105%Q 7) <= 20.
Proof.
  pose proof (reported_wait_bounded {[ 7 := 100%Q ]} 7 105%Q 110%Q) as (H1 & _ & H2).
  - discriminate.
  - split; [exact H1 |]. apply H2. discriminate.
Defined.

(** ** Further properties of [sendms] *)

(** The five ways a run of [sendms] can go. *)
Lemma sendms_cases (E : Env) (i : Interaction) (m1 : pystr)
    (m2 m3 : option pystr) (w : world) :
  let msgs := build_msgs [Some m1; m2; m3] [] in
  let n := Z.of_nat (length msgs) in
  let run := sendms E i m1 m2 m3 w in
  (exists wait,
     optint_truthy wait = true
     /\ run = (inr tt, push (tick w) [Respond (MSG_USER_COOLDOWN wait) true]))
  \/ run = (inr tt, push (tick (tick w)) [Respond MSG_GUILD_COOLDOWN true])
  \/ (msgs = []
      /\ run = (inr tt, push (tick (tick w)) [Respond MSG_NO_VALID true]))
  \/ (cooldowns_clear E i w /\ msgs <> [] /\ all_sends_return E w msgs
      /\ run
         = (inr tt,
            {| user_last :=
                 <[m_id (user i) := clock E (S (S (reads w)))]> (user_last w);
               guild_last :=
                 <[guild_key i := clock E (S (S (S (reads w))))]> (guild_last w);
               trace := trace w
                        ++ [Respond MSG_SENDING true]
                        ++ sent_events n 0 msgs
                        ++ [Followup (MSG_SENT n) true];
               reads := S (S (S (S (reads w)))) |}))
  \/ (exists k e,
        cooldowns_clear E i w /\ first_failure E w msgs k e
        /\ run
           = (inr tt,
              {| user_last := user_last w;
                 guild_last := guild_last w;
                 trace := trace w
                          ++ [Respond MSG_SENDING true]
                          ++ sent_events n 0 (firstn k msgs)
                          ++ [ChannelSend (nth k msgs []) (Raised e);
                              Followup (send_failure_message e) true];
                 reads := S (S (reads w)) |})).
Proof.
  cbv zeta.
  destruct (optint_truthy
              (is_on_user_cooldown (user_last w) (clock E (reads w))
                                   (m_id (user i)))) eqn:Hu.
  { left. eexists. split; [exact Hu |].
    apply (sendms_user_rejected E i m1 m2 m3 w Hu). }
  destruct (optint_truthy
              (is_on_guild_cooldown (guild_last w) (clock E (S (reads w)))
                                    (guild_key i))) eqn:Hg.
  { right. left. apply (sendms_guild_rejected E i m1 m2 m3 w Hu Hg). }
  assert (Hclear : cooldowns_clear E i w) by now split.
  destruct (build_msgs [Some m1; m2; m3] []) as [| c cs] eqn:Hmsgs.
  { right. right. left. split; [reflexivity |].
    apply (sendms_no_content E i m1 m2 m3 w Hclear Hmsgs). }
  rewrite <- Hmsgs.
  assert (Hm : build_msgs [Some m1; m2; m3] [] <> [])
    by (rewrite Hmsgs; discriminate).
  destruct (sends_return_or_fail E (build_msgs [Some m1; m2; m3] []) w)
    as [Hall | (k & e & Hfail)].
  - right. right. right. left. split; [exact Hclear |].
    split; [exact Hm |]. split; [exact Hall |].
    apply (sendms_all_sent E i m1 m2 m3 w Hclear Hm Hall).
  - right. right. right. right. exists k, e. split; [exact Hclear |].
    split; [exact Hfail |].
    apply (sendms_aborted E i m1 m2 m3 w k e Hclear Hfail).
Qed.

Lemma sent_events_kinds (n i : Z) (cs : list pystr) :
  List.filter is_respond (sent_events n i cs) = []
  /\ List.filter is_followup (sent_events n i cs) = []
  /\ List.filter is_edit (sent_events n i cs) = [].
Proof.
  revert i. induction cs as [| c cs IH]; intros i; [now repeat split |].
  destruct (IH (i + 1)) as (H1 & H2 & H3).
  simpl. rewrite !List.filter_app, H1, H2, H3.
  now destruct (i <? n - 1).
Qed.

Lemma build_msgs_bounds (ps : list (option pystr)) :
  (length (build_msgs ps []) <= length ps)%nat
  /\ Forall (fun c => (1 <= length c <= 2000)%nat) (build_msgs ps []).
Proof.
  rewrite build_msgs_spec. simpl app. unfold normalized_spec.
  induction ps as [| p ps [IHlen IHall]]; [split; [simpl; lia | constructor] |].
  destruct p as [s |]; simpl; [| split; [lia | exact IHall]].
  destruct (blank s) eqn:Hb; simpl; [split; [lia | exact IHall] |].
  split; [lia |]. constructor; [| exact IHall].
  rewrite length_firstn. destruct s; [discriminate | cbn [length]; lia].
Qed.

(** X4.  Every run of [sendms] answers the interaction exactly once
    through [interaction.response], and ephemerally.  Whatever follows that
    answer (a send, a delay, a follow-up) happens only when both cooldown
    checks let the invocation through and some payload survived
    normalization. *)
Theorem sendms_answers_once (E : Env) (i : Interaction) (m1 : pystr)
    (m2 m3 : option pystr) (w : world) :
  let w' := snd (sendms E i m1 m2 m3 w) in
  exists msg rest,
    trace w' = trace w ++ Respond msg true :: rest
    /\ List.filter is_respond rest = []
    /\ (rest = []
        \/ (cooldowns_clear E i w /\ build_msgs [Some m1; m2; m3] [] <> [])).
Proof.
  cbv zeta.
  destruct (sendms_cases E i m1 m2 m3 w)
    as [(wait & _ & ->) | [-> | [(_ & ->) | [(Hc & Hm & Hall & ->)
                                            | (k & e & Hc & Hf & ->)]]]];
    cbn [snd trace push tick].
  - exists (MSG_USER_COOLDOWN wait), []. auto.
  - exists MSG_GUILD_COOLDOWN, []. auto.
  - exists MSG_NO_VALID, []. auto.
  - eexists MSG_SENDING, _. split; [reflexivity |].
    destruct (sent_events_kinds
                (Z.of_nat (length (build_msgs [Some m1; m2; m3] []))) 0
                (build_msgs [Some m1; m2; m3] [])) as (H1 & _).
    split; [rewrite List.filter_app, H1; reflexivity |].
    right. now split.
  - eexists MSG_SENDING, _. split; [reflexivity |].
    destruct (sent_events_kinds
                (Z.of_nat (length (build_msgs [Some m1; m2; m3] []))) 0
                (firstn k (build_msgs [Some m1; m2; m3] []))) as (H1 & _).
    split; [rewrite List.filter_app, H1; reflexivity |].
    right. split; [exact Hc |].
    destruct Hf as [Hk _]. intros Heq. rewrite Heq in Hk. simpl in Hk. lia.
Qed.

(** X5.  In every run of [sendms] the channel receives a prefix of the
    normalized payloads, in order, and nothing else; there are at most
    three of them, none is empty and none is longer than 2000; at most
    three sends are attempted. *)
Theorem sendms_delivers_prefix (E : Env) (i : Interaction) (m1 : pystr)
    (m2 m3 : option pystr) (w : world) :
  let msgs := build_msgs [Some m1; m2; m3] [] in
  let w' := snd (sendms E i m1 m2 m3 w) in
  (exists k, (k <= length msgs)%nat
             /\ delivered (trace w') = delivered (trace w) ++ firstn k msgs)
  /\ (length msgs <= 3)%nat
  /\ Forall (fun c => (1 <= length c <= 2000)%nat) msgs
  /\ (sends_attempted (trace w') <= sends_attempted (trace w) + 3)%nat.
Proof.
  cbv zeta.
  destruct (build_msgs_bounds [Some m1; m2; m3]) as [Hlen Hall].
  change (length [Some m1; m2; m3]) with 3%nat in Hlen.
  pose proof (sendms_cases E i m1 m2 m3 w) as Hcases. cbv zeta in Hcases.
  remember (build_msgs [Some m1; m2; m3] []) as msgs eqn:Hmsgs.
  assert (Hrun :
    exists k, (k <= length msgs)%nat
      /\ delivered (trace (snd (sendms E i m1 m2 m3 w)))
         = delivered (trace w) ++ firstn k msgs
      /\ (sends_attempted (trace (snd (sendms E i m1 m2 m3 w)))
          <= sends_attempted (trace w) + length msgs)%nat).
  { destruct Hcases
      as [(wait & _ & ->) | [-> | [(_ & ->) | [(Hc & Hm & Hret & ->)
                                              | (k & e & Hc & Hf & ->)]]]];
      cbn [snd trace push tick].
    - exists 0%nat. rewrite delivered_app, sends_attempted_app. unfold sends_attempted.
      simpl. rewrite firstn_O, !app_nil_r. repeat split; try reflexivity; lia.
    - exists 0%nat. rewrite delivered_app, sends_attempted_app. unfold sends_attempted.
      simpl. rewrite firstn_O, !app_nil_r. repeat split; try reflexivity; lia.
    - exists 0%nat. rewrite delivered_app, sends_attempted_app. unfold sends_attempted.
      simpl. rewrite firstn_O, !app_nil_r. repeat split; try reflexivity; lia.
    - exists (length msgs).
      rewrite !delivered_app, delivered_sent_events, !sends_attempted_app,
        sends_attempted_sent_events, firstn_all.
      unfold sends_attempted. simpl. rewrite app_nil_r.
      repeat split; try reflexivity; lia.
    - exists k. destruct Hf as (Hk & _ & _).
      rewrite !delivered_app, delivered_sent_events, !sends_attempted_app,
        sends_attempted_sent_events, length_firstn.
      unfold sends_attempted. simpl. rewrite app_nil_r.
      repeat split; try reflexivity; lia. }
  destruct Hrun as (k & Hk & Hd & Hs).
  split; [now exists k |]. split; [exact Hlen |]. split; [exact Hall | lia].
Qed.

Lemma sleeps_between (n i : Z) (cs : list pystr) :
  i + Z.of_nat (length cs) <= n - 1 ->
  List.filter is_sleep (sent_events n i cs) = repeat (Sleep (7 # 10)) (length cs).
Proof.
  revert i. induction cs as [| c cs IH]; intros i Hi; [reflexivity |].
  cbn [length] in Hi. simpl sent_events. cbn [List.filter is_sleep].
  rewrite List.filter_app, IH by lia.
  replace (i <? n - 1) with true by (symmetry; apply Z.ltb_lt; lia).
  reflexivity.
Qed.

Lemma sleeps_to_the_end (n i : Z) (cs : list pystr) :
  i + Z.of_nat (length cs) = n ->
  List.filter is_sleep (sent_events n i cs)
  = repeat (Sleep (7 # 10)) (length cs - 1)
  /\ (cs <> [] ->
      exists pre, sent_events n i cs = pre ++ [ChannelSend (List.last cs []) Returned]).
Proof.
  revert i. induction cs as [| c cs IH]; intros i Hi; [now split |].
  cbn [length] in Hi. destruct (IH (i + 1)) as [IHs IHl]; [lia |].
  simpl sent_events. cbn [List.filter is_sleep]. rewrite List.filter_app, IHs.
  destruct cs as [| c' cs].
  - replace (i <? n - 1) with false
      by (symmetry; apply Z.ltb_ge; simpl in Hi; lia).
    split; [reflexivity |]. intros _. now exists [].
  - replace (i <? n - 1) with true
      by (symmetry; apply Z.ltb_lt; cbn [length] in Hi; lia).
    split; [simpl; now rewrite ?Nat.sub_0_r |].
    intros _. destruct IHl as [pre Hpre]; [discriminate |].
    rewrite Hpre.
    exists (ChannelSend c Returned :: Sleep (7 # 10) :: pre). reflexivity.
Qed.

(** X6.  Pacing of [sendms]: when all [n] sends return, exactly [n - 1]
    delays of 0.7 s are taken and the last send is followed directly by the
    success message, with no delay in between; when send [k] is the first
    to raise, exactly [k] delays were taken. *)
Theorem sendms_pacing (E : Env) (i : Interaction) (m1 : pystr)
    (m2 m3 : option pystr) (w : world) :
  let msgs := build_msgs [Some m1; m2; m3] [] in
  let w' := snd (sendms E i m1 m2 m3 w) in
  cooldowns_clear E i w ->
  (msgs <> [] -> all_sends_return E w msgs ->
   List.filter is_sleep (trace w')
   = List.filter is_sleep (trace w)
     ++ repeat (Sleep (7 # 10)) (length msgs - 1)
   /\ exists pre,
        trace w'
        = pre ++ [ChannelSend (List.last msgs []) Returned;
                  Followup (MSG_SENT (Z.of_nat (length msgs))) true])
  /\ (forall k e,
        first_failure E w msgs k e ->
        List.filter is_sleep (trace w')
        = List.filter is_sleep (trace w) ++ repeat (Sleep (7 # 10)) k).
Proof.
  intros msgs w' Hclear. split.
  - intros Hm Hall. subst w'.
    rewrite (sendms_all_sent E i m1 m2 m3 w Hclear Hm Hall). cbn [snd trace].
    fold msgs.
    destruct (sleeps_to_the_end (Z.of_nat (length msgs)) 0 msgs) as [Hs Hl];
      [lia |].
    split.
    + rewrite !List.filter_app, Hs. simpl. now rewrite app_nil_r.
    + destruct (Hl Hm) as [pre ->].
      exists (trace w ++ [Respond MSG_SENDING true] ++ pre).
      now rewrite <- !app_assoc.
  - intros k e Hfail. subst w'.
    rewrite (sendms_aborted E i m1 m2 m3 w k e Hclear Hfail). cbn [snd trace].
    fold msgs. destruct Hfail as (Hk & _ & _).
    rewrite !List.filter_app, sleeps_between.
    + rewrite length_firstn, Nat.min_l by lia. simpl. now rewrite app_nil_r.
    + rewrite length_firstn. lia.
Qed.

Lemma sendms_pacing_witness :
  List.filter is_sleep
    (trace (snd (sendms env_ok (in_guild bob guild0) (lit "a")
                        (Some (lit "b")) (Some (lit "c")) world0)))
  = [Sleep (7 # 10); Sleep (7 # 10)]
  /\ List.filter is_sleep
       (trace (snd (sendms env0 (in_guild bob guild0) (lit "a")
                           (Some (lit "b")) (Some (lit "c")) world0)))
     = [Sleep (7 # 10)].
Proof.
  split.
  - pose proof (sendms_pacing env_ok (in_guild bob guild0) (lit "a")
                  (Some (lit "b")) (Some (lit "c")) world0) as H.
    destruct H as [H _]; [split; reflexivity |].
    destruct H as [H _]; [discriminate | intros j Hj; reflexivity |].
    exact H.
  - pose proof (sendms_pacing env0 (in_guild bob guild0) (lit "a")
                  (Some (lit "b")) (Some (lit "c")) world0) as H.
    destruct H as [_ H]; [split; reflexivity |].
    apply (H 1%nat Forbidden).
    split; [simpl; lia |]. split; [| reflexivity].
    intros j Hj. destruct j; [reflexivity | lia].
Defined.

(** X7.  A run of [sendms] writes at most two entries: [user_last] at the
    invoker's id and [guild_last] at the guild key, and it writes both or
    neither.  Every other entry of either map is as before, and no entry is
    ever removed. *)
Theorem sendms_touches_own_keys (E : Env) (i : Interaction) (m1 : pystr)
    (m2 m3 : option pystr) (w : world) :
  let w' := snd (sendms E i m1 m2 m3 w) in
  ((user_last w' = user_last w /\ guild_last w' = guild_last w)
   \/ (user_last w'
       = <[m_id (user i) := clock E (S (S (reads w)))]> (user_last w)
       /\ guild_last w'
          = <[guild_key i := clock E (S (S (S (reads w))))]> (guild_last w)))
  /\ (forall k, k <> m_id (user i) -> user_last w' !! k = user_last w !! k)
  /\ (forall k, k <> guild_key i -> guild_last w' !! k = guild_last w !! k)
  /\ (forall k, is_Some (user_last w !! k) -> is_Some (user_last w' !! k))
  /\ (forall k, is_Some (guild_last w !! k) -> is_Some (guild_last w' !! k)).
Proof.
  cbv zeta.
  assert (Hmaps :
    (user_last (snd (sendms E i m1 m2 m3 w)) = user_last w
     /\ guild_last (snd (sendms E i m1 m2 m3 w)) = guild_last w)
    \/ (user_last (snd (sendms E i m1 m2 m3 w))
        = <[m_id (user i) := clock E (S (S (reads w)))]> (user_last w)
        /\ guild_last (snd (sendms E i m1 m2 m3 w))
           = <[guild_key i := clock E (S (S (S (reads w))))]> (guild_last w))).
  { destruct (sendms_cases E i m1 m2 m3 w)
      as [(wait & _ & ->) | [-> | [(_ & ->) | [(_ & _ & _ & ->)
                                              | (k & e & _ & _ & ->)]]]];
      cbn [snd user_last guild_last push tick]; auto. }
  split; [exact Hmaps |].
  destruct Hmaps as [[-> ->] | [-> ->]]; repeat split; auto.
  - intros k Hk. now apply lookup_insert_ne.
  - intros k Hk. now apply lookup_insert_ne.
  - intros k Hk. rewrite lookup_insert. case_decide; eauto.
  - intros k Hk. rewrite lookup_insert. case_decide; eauto.
Qed.

Lemma sendms_touches_own_keys_witness :
  let w := {| user_last := {[ 5 := 1%Q ]}; guild_last := {[ 6 := 2%Q ]};
              trace := []; reads := 0 |} in
  let w' := snd (sendms env_ok (in_guild bob guild0) (lit "hi") None None w) in
  user_last w' !! 5 = Some 1%Q /\ guild_last w' !! 6 = Some 2%Q
  /\ user_last w' !! 2 = Some (inject_Z 102).
Proof.
  intros w w'.
  destruct (sendms_touches_own_keys env_ok (in_guild bob guild0) (lit "hi")
              None None w) as (Hboth & Hu & Hg & _).
  split; [| split].
  - refine (eq_trans (Hu 5 _) eq_refl). discriminate.
  - refine (eq_trans (Hg 6 _) eq_refl). discriminate.
  - reflexivity.
Defined.

Lemma clock_monotone_le (E : Env) (n m : nat) :
  clock_monotone E -> (n <= m)%nat -> (clock E n <= clock E m)%Q.
Proof.
  intros Hmono Hle. induction Hle as [| m _ IH]; [apply Qle_refl |].
  apply Qle_trans with (clock E m); [exact IH | apply Hmono].
Qed.

(** X8.  With a clock that never runs backwards, [sendms] keeps the recorded
    timestamps in the past of the clock, and no scope key's timestamp ever
    decreases. *)
Theorem sendms_stamps_monotone (E : Env) (i : Interaction) (m1 : pystr)
    (m2 m3 : option pystr) (w : world) :
  clock_monotone E -> stamps_in_past E w ->
  let w' := snd (sendms E i m1 m2 m3 w) in
  stamps_in_past E w'
  /\ (forall k t, user_last w !! k = Some t ->
        exists t', user_last w' !! k = Some t' /\ (t <= t')%Q)
  /\ (forall k t, guild_last w !! k = Some t ->
        exists t', guild_last w' !! k = Some t' /\ (t <= t')%Q).
Proof.
  intros Hmono [Hu Hg]. cbv zeta.
  assert (Hclk : forall j k, (j <= k)%nat ->
                   (clock E (j + reads w) <= clock E (k + reads w))%Q).
  { intros j k Hjk. apply clock_monotone_le; [exact Hmono | lia]. }
  assert (Hnew : forall (m : gmap Z Q) key j k stamp t,
            (forall k0 t0, m !! k0 = Some t0 -> (t0 <= clock E (reads w))%Q) ->
            (j <= k)%nat ->
            <[key := clock E (j + reads w)]> m !! stamp = Some t ->
            (t <= clock E (k + reads w))%Q).
  { intros m key j k stamp t Hm Hjk Hlook.
    rewrite lookup_insert in Hlook. case_decide.
    - injection Hlook as <-. now apply Hclk.
    - apply Qle_trans with (clock E (0 + reads w)); [now apply (Hm stamp) |].
      apply Hclk. lia. }
  assert (Hgrow : forall (m : gmap Z Q) key j stamp t,
            (forall k0 t0, m !! k0 = Some t0 -> (t0 <= clock E (reads w))%Q) ->
            m !! stamp = Some t ->
            exists t', <[key := clock E (j + reads w)]> m !! stamp = Some t'
                       /\ (t <= t')%Q).
  { intros m key j stamp t Hm Hlook.
    rewrite lookup_insert. case_decide.
    - eexists. split; [reflexivity |].
      apply Qle_trans with (clock E (0 + reads w)); [now apply (Hm stamp) |].
      apply Hclk. lia.
    - exists t. split; [exact Hlook | apply Qle_refl]. }
  assert (Hkeep : forall j t,
            (t <= clock E (reads w))%Q -> (t <= clock E (j + reads w))%Q).
  { intros j t Ht. apply Qle_trans with (clock E (0 + reads w)); [exact Ht |].
    apply Hclk. lia. }
  destruct (sendms_cases E i m1 m2 m3 w)
    as [(wait & _ & ->) | [-> | [(_ & ->) | [(_ & _ & _ & ->)
                                            | (k & e & _ & _ & ->)]]]];
    cbn [snd user_last guild_last reads push tick]; unfold stamps_in_past;
    cbn [user_last guild_last reads].
  - repeat split; eauto using Qle_refl.
    + intros k t Hk. apply (Hkeep 1%nat). eauto.
    + intros k t Hk. apply (Hkeep 1%nat). eauto.
  - repeat split; eauto using Qle_refl.
    + intros k t Hk. apply (Hkeep 2%nat). eauto.
    + intros k t Hk. apply (Hkeep 2%nat). eauto.
  - repeat split; eauto using Qle_refl.
    + intros k t Hk. apply (Hkeep 2%nat). eauto.
    + intros k t Hk. apply (Hkeep 2%nat). eauto.
  - repeat split.
    + intros k t Hk. apply (Hnew _ _ 2%nat 4%nat _ _ Hu ltac:(lia) Hk).
    + intros k t Hk. apply (Hnew _ _ 3%nat 4%nat _ _ Hg ltac:(lia) Hk).
    + intros k t Hk. apply (Hgrow _ _ 2%nat _ _ Hu Hk).
    + intros k t Hk. apply (Hgrow _ _ 3%nat _ _ Hg Hk).
  - repeat split; eauto using Qle_refl.
    + intros k' t Hk. apply (Hkeep 2%nat). eauto.
    + intros k' t Hk. apply (Hkeep 2%nat). eauto.
Qed.

Lemma sendms_stamps_monotone_witness :
  stamps_in_past env_ok
    (snd (sendms env_ok (in_guild bob guild0) (lit "a") None None world0)).
Proof.
  refine (proj1 (sendms_stamps_monotone env_ok (in_guild bob guild0) (lit "a")
                   None None world0 _ _)).
  - intros n. unfold env_ok, clock. rewrite <- Zle_Qle. lia.
  - split; intros k t Hk; unfold world0 in Hk;
      cbn [user_last guild_last] in Hk; rewrite lookup_empty in Hk;
      discriminate.
Defined.

(** X9.  A repeat by the same user is turned away: after a run of [sendms]
    in which every send returned, an invocation by the same user id, in any
    guild or none, made while at least one full second of the 20 s window
    remains, gets the cooldown message naming a wait of at least 1 second;
    nothing is sent, nothing is recorded, and the guild check is not even
    consulted (the clock is read once). *)
Theorem sendms_repeat_rejected (E : Env) (i i2 : Interaction) (m1 n1 : pystr)
    (m2 m3 n2 n3 : option pystr) (w : world) :
  let msgs := build_msgs [Some m1; m2; m3] [] in
  let w' := snd (sendms E i m1 m2 m3 w) in
  let w'' := snd (sendms E i2 n1 n2 n3 w') in
  let left := remaining USER_COOLDOWN_SECS (clock E (reads w'))
                        (clock E (S (S (reads w)))) in
  cooldowns_clear E i w -> msgs <> [] -> all_sends_return E w msgs ->
  m_id (user i2) = m_id (user i) ->
  (1 <= left)%Q ->
  exists wait,
    1 <= wait
    /\ trace w'' = trace w' ++ [Respond (MSG_USER_COOLDOWN (Some wait)) true]
    /\ delivered (trace w'') = delivered (trace w')
    /\ user_last w'' = user_last w' /\ guild_last w'' = guild_last w'
    /\ reads w'' = S (reads w').
Proof.
  intros msgs w' w'' left Hclear Hm Hall Hid Hleft.
  assert (Hrec : user_last w' !! m_id (user i2) = Some (clock E (S (S (reads w))))).
  { subst w'. rewrite (sendms_all_sent E i m1 m2 m3 w Hclear Hm Hall).
    cbn [snd user_last]. rewrite Hid. apply lookup_insert_eq. }
  assert (Hpos : (0 < left)%Q).
  { apply Qlt_le_trans with 1%Q; [reflexivity | exact Hleft]. }
  assert (Hwait : is_on_user_cooldown (user_last w') (clock E (reads w'))
                                      (m_id (user i2))
                  = Some (Qfloor left)).
  { rewrite is_on_user_cooldown_unfold, Hrec.
    change (default 0%Q (Some ?t)) with t. cbv zeta. fold left.
    now apply peek_positive. }
  assert (Hfloor : 1 <= Qfloor left).
  { apply Qfloor_pos_iff in Hleft. lia. }
  assert (Htruthy : optint_truthy
                      (is_on_user_cooldown (user_last w') (clock E (reads w'))
                                           (m_id (user i2))) = true).
  { rewrite Hwait. unfold optint_truthy. apply negb_true_iff, Z.eqb_neq. lia. }
  exists (Qfloor left). split; [exact Hfloor |]. subst w''.
  rewrite (sendms_user_rejected E i2 n1 n2 n3 w' Htruthy), Hwait.
  cbn [snd trace push tick user_last guild_last reads].
  repeat split. rewrite delivered_app. simpl. now rewrite app_nil_r.
Qed.

Lemma sendms_repeat_rejected_witness :
  let w' := snd (sendms env_ok (in_guild bob guild0) (lit "hi") None None world0) in
  let w'' := snd (sendms env_ok (direct_message bob) (lit "again") None None w') in
  exists wait,
    1 <= wait
    /\ trace w'' = trace w' ++ [Respond (MSG_USER_COOLDOWN (Some wait)) true]
    /\ delivered (trace w'') = [lit "hi"].
Proof.
  intros w' w''.
  destruct (sendms_repeat_rejected env_ok (in_guild bob guild0)
              (direct_message bob) (lit "hi") (lit "again") None None None None
              world0) as (wait & Hw & Ht & Hd & _).
  - split; reflexivity.
  - vm_compute. discriminate.
  - intros j Hj. reflexivity.
  - reflexivity.
  - vm_compute. discriminate.
  - exists wait. split; [exact Hw |]. split; [exact Ht | exact Hd].
Defined.

(** ** Further properties of [changenick] *)

Section Batch.

Variables (E : Env) (g : Guild) (bot_member invoker : Member) (nickname : pystr).

Abbreviation events := (batch_events E g bot_member invoker nickname).
Abbreviation names := (batch_success E g bot_member invoker nickname).
Abbreviation failures := (batch_failed E g bot_member invoker nickname).

(** The loop, as a function of the targets and the environment. *)
Lemma rename_loop_outcome (targets : list Member) (success : list pystr)
    (failed : list (pystr * pystr)) (w : world) :
  let k := edits_attempted (trace w) in
  rename_loop E g bot_member invoker nickname targets success failed w
  = (inr (success ++ names k targets, failed ++ failures k targets),
     push w (events k targets)).
Proof.
  cbv zeta. revert success failed w.
  induction targets as [| m rest IH]; intros success failed w.
  - simpl. now rewrite push_nil, !app_nil_r.
  - rewrite rename_loop_cons. cbn [batch_events batch_success batch_failed].
    unfold editable.
    destruct (m_id m =? owner_id g).
    { rewrite IH, <- app_assoc. reflexivity. }
    destruct (top_role_position bot_member <=? top_role_position m).
    { rewrite IH, <- app_assoc. reflexivity. }
    cbn [negb andb]. cbv zeta. fold (edits_attempted (trace w)).
    assert (Hnext : forall r,
               edits_attempted
                 (trace (push w [MemberEdit (m_id m) nickname
                                            (audit_reason invoker) r;
                                 Sleep (1 # 4)]))
               = S (edits_attempted (trace w))).
    { intros r. unfold edits_attempted. cbn [push trace].
      rewrite List.filter_app, length_app. simpl. lia. }
    destruct (edit_outcome E (edits_attempted (trace w)) (m_id m) nickname
                           (audit_reason invoker)) as [| [| detail]] eqn:Hcall;
      rewrite IH, Hnext, push_push, <- ?app_assoc; reflexivity.
Qed.

Lemma batch_events_kinds (k : nat) (targets : list Member) :
  delivered (events k targets) = []
  /\ List.filter is_send (events k targets) = []
  /\ List.filter is_respond (events k targets) = []
  /\ List.filter is_followup (events k targets) = [].
Proof.
  revert k. induction targets as [| m rest IH]; intros k; [now repeat split |].
  simpl. destruct (editable g bot_member m); simpl; apply IH.
Qed.

Lemma batch_events_shape (k : nat) (targets : list Member) :
  length (List.filter is_edit (events k targets))
  = length (List.filter (editable g bot_member) targets)
  /\ List.filter is_sleep (events k targets)
     = repeat (Sleep (1 # 4))
              (length (List.filter (editable g bot_member) targets))
  /\ events k targets
     = flat_map (fun e => [e; Sleep (1 # 4)])
                (List.filter is_edit (events k targets))
  /\ Forall (edit_as nickname invoker) (events k targets).
Proof.
  revert k. induction targets as [| m rest IH]; intros k.
  - repeat split. constructor.
  - simpl. destruct (editable g bot_member m).
    + destruct (IH (S k)) as (H1 & H2 & H3 & H4). simpl.
      rewrite H1, H2, <- H3. repeat split.
      constructor; [now split |]. constructor; [exact I | exact H4].
    + apply IH.
Qed.

End Batch.

(** A run that gets to its batch, as a function of the targets and the
    environment. *)
Lemma changenick_outcome (E : Env) (i : Interaction) (nickname : pystr)
    (member : option Member) (change_many : bool) (g : Guild)
    (bot_member : Member) (targets : list Member) (w : world) :
  reaches_batch E i member change_many g bot_member targets ->
  let k := edits_attempted (trace w) in
  changenick E i nickname member change_many w
  = (inr tt,
     push w ([Defer]
             ++ batch_events E g bot_member (user i) nickname k targets
             ++ [Followup
                   (summary
                      (batch_success E g bot_member (user i) nickname k targets,
                       batch_failed E g bot_member (user i) nickname k targets))
                   false])).
Proof.
  intros Hreach. cbv zeta.
  rewrite (changenick_batch E i nickname member change_many g bot_member
                            targets w Hreach).
  rewrite bind_run, rename_loop_outcome. cbv zeta. rewrite !app_nil_l.
  unfold followup, emit. rewrite !push_push.
  replace (edits_attempted (trace (push w [Defer])))
    with (edits_attempted (trace w)).
  2:{ unfold edits_attempted. cbn [push trace].
      rewrite List.filter_app, length_app. simpl. lia. }
  reflexivity.
Qed.

(** The three ways a run of [changenick] can go: one refusal, the missing
    member, or a batch. *)
Lemma changenick_cases (E : Env) (i : Interaction) (nickname : pystr)
    (member : option Member) (change_many : bool) (w : world) :
  let run := changenick E i nickname member change_many w in
  (exists msg, run = (inr tt, push w [Respond msg true]))
  \/ (change_many = false /\ member = None
      /\ run = (inr tt, push w [Defer; Followup MSG_NEED_MEMBER true]))
  \/ (exists g bot_member targets,
        reaches_batch E i member change_many g bot_member targets
        /\ let k := edits_attempted (trace w) in
           run
           = (inr tt,
              push w ([Defer]
                      ++ batch_events E g bot_member (user i) nickname k targets
                      ++ [Followup
                            (summary
                               (batch_success E g bot_member (user i) nickname
                                              k targets,
                                batch_failed E g bot_member (user i) nickname
                                             k targets)) false]))).
Proof.
  cbv zeta.
  destruct (guild i) as [g |] eqn:Hg.
  2:{ left. exists MSG_NEED_GUILD. unfold changenick. now rewrite Hg. }
  destruct (manage_nicknames (user i) || (m_id (user i) =? owner_id g)) eqn:Hperm.
  2:{ left. exists MSG_NEED_PERMISSION. unfold changenick.
      now rewrite Hg, Hperm. }
  destruct (get_member g (bot_user_id E)) as [bot_member |] eqn:Hbot.
  2:{ left. exists MSG_BOT_NEEDS_PERMISSION. unfold changenick.
      now rewrite Hg, Hperm, Hbot. }
  destruct (manage_nicknames bot_member) eqn:Hbotperm.
  2:{ left. exists MSG_BOT_NEEDS_PERMISSION. unfold changenick.
      now rewrite Hg, Hperm, Hbot, Hbotperm. }
  destruct change_many.
  - right. right. exists g, bot_member, (many_targets E g).
    assert (Hreach : reaches_batch E i member true g bot_member
                                   (many_targets E g)) by (repeat split; auto).
    split; [exact Hreach | now apply changenick_outcome].
  - destruct member as [m |].
    + right. right. exists g, bot_member, [m].
      assert (Hreach : reaches_batch E i (Some m) false g bot_member [m])
        by (repeat split; auto).
      split; [exact Hreach | now apply changenick_outcome].
    + right. left. repeat split. unfold changenick.
      rewrite Hg, Hperm, Hbot, Hbotperm. cbn [negb]. cbv beta iota zeta.
      unfold mbind, M_bind, followup, emit. cbv beta iota.
      now rewrite push_push.
Qed.


(** X11.  Every run of [changenick] answers the interaction exactly once:
    with one ephemeral message and nothing more, or with a deferral; and a
    deferred interaction always gets exactly one follow-up, which is the
    last thing the run does. *)
Theorem changenick_answers_once (E : Env) (i : Interaction)
    (nickname : pystr) (member : option Member) (change_many : bool)
    (w : world) :
  let w' := snd (changenick E i nickname member change_many w) in
  (exists msg, trace w' = trace w ++ [Respond msg true])
  \/ (exists body final ephemeral,
        trace w' = trace w ++ Defer :: body ++ [Followup final ephemeral]
        /\ List.filter is_respond body = []
        /\ List.filter is_followup body = []).
Proof.
  cbv zeta.
  destruct (changenick_cases E i nickname member change_many w)
    as [(msg & ->) | [(_ & _ & ->) | (g & bot_member & targets & _ & Hrun)]].
  - left. now exists msg.
  - right. now exists [], MSG_NEED_MEMBER, true.
  - right. cbv zeta in Hrun. rewrite Hrun. cbn [snd push trace].
    destruct (batch_events_kinds E g bot_member (user i) nickname
                (edits_attempted (trace w)) targets) as (_ & _ & Hr & Hf).
    eexists _, _, false. split; [reflexivity |]. now split.
Qed.

(** X12.  Pacing of the batch: every [edit] call, whatever its outcome, is
    followed directly by one delay of 0.25 s, and nothing else happens
    between the deferral and the report.  A target stopped by a hard rule
    (owner, role hierarchy) costs neither a call nor a delay; so there are
    exactly as many delays as targets that passed both rules. *)
Theorem batch_pacing (E : Env) (i : Interaction) (nickname : pystr)
    (member : option Member) (change_many : bool) (g : Guild)
    (bot_member : Member) (targets : list Member) (w : world) :
  reaches_batch E i member change_many g bot_member targets ->
  exists evs report,
    trace (snd (changenick E i nickname member change_many w))
    = trace w ++ [Defer] ++ evs ++ [Followup report false]
    /\ evs = flat_map (fun e => [e; Sleep (1 # 4)]) (List.filter is_edit evs)
    /\ length (List.filter is_edit evs)
       = length (List.filter (editable g bot_member) targets)
    /\ List.filter is_sleep evs
       = repeat (Sleep (1 # 4))
                (length (List.filter (editable g bot_member) targets)).
Proof.
  intros Hreach.
  pose proof (changenick_outcome E i nickname member change_many g bot_member
                targets w Hreach) as Hrun.
  cbv zeta in Hrun. rewrite Hrun. cbn [snd push trace].
  destruct (batch_events_shape E g bot_member (user i) nickname
              (edits_attempted (trace w)) targets) as (H1 & H2 & H3 & _).
  eexists _, _. split; [reflexivity |]. split; [exact H3 |]. now split.
Qed.

Lemma batch_pacing_witness :
  exists evs report,
    trace (snd (changenick env0 (in_guild alice guild0) (lit "x") None true
                           world0))
    = [Defer] ++ evs ++ [Followup report false]
    /\ List.filter is_sleep evs = repeat (Sleep (1 # 4)) 3.
Proof.
  destruct (batch_pacing env0 (in_guild alice guild0) (lit "x") None true guild0
              the_bot (many_targets env0 guild0) world0)
    as (evs & report & Ht & _ & _ & Hs).
  - repeat split; reflexivity.
  - exists evs, report. split; [exact Ht | exact Hs].
Defined.

(** X13.  Every [edit] call of a batch asks for the nickname the command
    was given and carries the audit reason "Changed by " followed by the
    invoking user. *)
Theorem batch_edits_as_requested (E : Env) (i : Interaction) (nickname : pystr)
    (member : option Member) (change_many : bool) (g : Guild)
    (bot_member : Member) (targets : list Member) (w : world) :
  reaches_batch E i member change_many g bot_member targets ->
  exists evs report,
    trace (snd (changenick E i nickname member change_many w))
    = trace w ++ [Defer] ++ evs ++ [Followup report false]
    /\ Forall (fun e =>
                 match e with
                 | MemberEdit _ nick reason _ =>
                     nick = nickname
                     /\ reason = lit "Changed by " ++ m_str (user i)
                 | _ => True
                 end) evs.
Proof.
  intros Hreach.
  pose proof (changenick_outcome E i nickname member change_many g bot_member
                targets w Hreach) as Hrun.
  cbv zeta in Hrun. rewrite Hrun. cbn [snd push trace].
  destruct (batch_events_shape E g bot_member (user i) nickname
              (edits_attempted (trace w)) targets) as (_ & _ & _ & H4).
  eexists _, _. split; [reflexivity | exact H4].
Qed.

Lemma batch_edits_as_requested_witness :
  exists evs report,
    trace (snd (changenick env0 (in_guild alice guild0) (lit "x") (Some bob)
                           false world0))
    = [Defer] ++ evs ++ [Followup report false]
    /\ Forall (fun e =>
                 match e with
                 | MemberEdit _ nick reason _ =>
                     nick = lit "x" /\ reason = lit "Changed by alice"
                 | _ => True
                 end) evs.
Proof.
  apply (batch_edits_as_requested env0 (in_guild alice guild0) (lit "x")
           (Some bob) false guild0 the_bot [bob] world0).
  repeat split; reflexivity.
Defined.

(** A batch run with the two lists its report is built from, and what they
    are as functions of the targets and the environment. *)
Lemma changenick_report (E : Env) (i : Interaction) (nickname : pystr)
    (member : option Member) (change_many : bool) (g : Guild)
    (bot_member : Member) (targets : list Member) (w : world) :
  reaches_batch E i member change_many g bot_member targets ->
  let k := edits_attempted (trace w) in
  let success := batch_success E g bot_member (user i) nickname k targets in
  let failed := batch_failed E g bot_member (user i) nickname k targets in
  let evs := batch_events E g bot_member (user i) nickname k targets in
  changenick E i nickname member change_many w
  = (inr tt, push w ([Defer] ++ evs
                     ++ [Followup (summary (success, failed)) false]))
  /\ rename_loop E g bot_member (user i) nickname targets [] []
                 (push w [Defer])
     = (inr (success, failed), push (push w [Defer]) evs).
Proof.
  intros Hreach. cbv zeta. split.
  - apply (changenick_outcome E i nickname member change_many g bot_member
             targets w Hreach).
  - rewrite rename_loop_outcome. cbv zeta. rewrite !app_nil_l.
    replace (edits_attempted (trace (push w [Defer])))
      with (edits_attempted (trace w)); [reflexivity |].
    unfold edits_attempted. cbn [push trace].
    rewrite List.filter_app, length_app. simpl. lia.
Qed.

Section BatchLists.

Variables (E : Env) (g : Guild) (bot_member invoker : Member) (nickname : pystr).

Lemma batch_all_returned (k : nat) (targets : list Member) :
  (forall j id, edit_outcome E j id nickname (audit_reason invoker) = Returned) ->
  batch_success E g bot_member invoker nickname k targets
  = List.map display_name (List.filter (editable g bot_member) targets)
  /\ batch_failed E g bot_member invoker nickname k targets
     = List.map
         (fun m => (display_name m,
                    if m_id m =? owner_id g then REASON_OWNER
                    else REASON_HIERARCHY))
         (List.filter (fun m => negb (editable g bot_member m)) targets).
Proof.
  intros Hok. revert k. induction targets as [| m rest IH]; intros k;
    [now split |].
  cbn [batch_success batch_failed List.filter].
  destruct (m_id m =? owner_id g) eqn:Hown.
  { assert (He : editable g bot_member m = false)
      by (unfold editable; now rewrite Hown).
    rewrite He. cbn [negb List.map]. rewrite Hown.
    destruct (IH k) as [-> ->]. now split. }
  destruct (top_role_position bot_member <=? top_role_position m) eqn:Hpos.
  { assert (He : editable g bot_member m = false)
      by (unfold editable; now rewrite Hown, Hpos).
    rewrite He. cbn [negb List.map]. rewrite Hown.
    destruct (IH k) as [-> ->]. now split. }
  assert (He : editable g bot_member m = true)
    by (unfold editable; now rewrite Hown, Hpos).
  rewrite He, Hok. cbn [negb List.map].
  destruct (IH (S k)) as [-> ->]. now split.
Qed.

Lemma batch_all_raised (k : nat) (targets : list Member) :
  (forall j id,
     exists e, edit_outcome E j id nickname (audit_reason invoker) = Raised e) ->
  batch_success E g bot_member invoker nickname k targets = []
  /\ length (batch_failed E g bot_member invoker nickname k targets)
     = length targets.
Proof.
  intros Hraise. revert k. induction targets as [| m rest IH]; intros k;
    [now split |].
  cbn [batch_success batch_failed].
  destruct (m_id m =? owner_id g) eqn:Hown.
  { assert (He : editable g bot_member m = false)
      by (unfold editable; now rewrite Hown).
    rewrite He. destruct (IH k) as [-> Hlen].
    split; [reflexivity | simpl; now rewrite Hlen]. }
  destruct (top_role_position bot_member <=? top_role_position m) eqn:Hpos.
  { assert (He : editable g bot_member m = false)
      by (unfold editable; now rewrite Hown, Hpos).
    rewrite He. destruct (IH k) as [-> Hlen].
    split; [reflexivity | simpl; now rewrite Hlen]. }
  assert (He : editable g bot_member m = true)
    by (unfold editable; now rewrite Hown, Hpos).
  rewrite He. destruct (Hraise k (m_id m)) as [e ->].
  destruct (IH (S k)) as [-> Hlen].
  split; [reflexivity |]. destruct e; simpl; now rewrite Hlen.
Qed.

Lemma batch_failed_reasons (k : nat) (targets : list Member) :
  Forall (fun f => known_reason (snd f))
         (batch_failed E g bot_member invoker nickname k targets).
Proof.
  revert k. induction targets as [| m rest IH]; intros k; [constructor |].
  cbn [batch_failed]. unfold known_reason.
  destruct (m_id m =? owner_id g); [constructor; [simpl; auto | apply IH] |].
  destruct (top_role_position bot_member <=? top_role_position m);
    [constructor; [simpl; auto | apply IH] |].
  destruct (edit_outcome E k (m_id m) nickname (audit_reason invoker))
    as [| [| detail]]; [apply IH | |];
    (constructor; [simpl; eauto 6 | apply IH]).
Qed.

End BatchLists.

(** X14.  The lists follow the [edit] calls.  If every call returns,
    [success] is the display names of the targets that passed both hard
    rules, in order, and [failed] holds exactly the others, each under its
    hard-rule reason.  If every call raises, [success] is empty and every
    target is in [failed]: one failed rename does not stop the batch. *)
Theorem batch_lists_follow_edits (E : Env) (i : Interaction) (nickname : pystr)
    (member : option Member) (change_many : bool) (g : Guild)
    (bot_member : Member) (targets : list Member) (w : world) :
  reaches_batch E i member change_many g bot_member targets ->
  exists success failed evs,
    changenick E i nickname member change_many w
    = (inr tt, push w ([Defer] ++ evs
                       ++ [Followup (summary (success, failed)) false]))
    /\ rename_loop E g bot_member (user i) nickname targets [] []
                   (push w [Defer])
       = (inr (success, failed), push (push w [Defer]) evs)
    /\ ((forall j id,
           edit_outcome E j id nickname (audit_reason (user i)) = Returned) ->
        success
        = List.map display_name (List.filter (editable g bot_member) targets)
        /\ failed
           = List.map
               (fun m => (display_name m,
                          if m_id m =? owner_id g then REASON_OWNER
                          else REASON_HIERARCHY))
               (List.filter (fun m => negb (editable g bot_member m)) targets))
    /\ ((forall j id,
           exists e,
             edit_outcome E j id nickname (audit_reason (user i)) = Raised e) ->
        success = [] /\ length failed = length targets).
Proof.
  intros Hreach.
  destruct (changenick_report E i nickname member change_many g bot_member
                              targets w Hreach) as [Hrun Hloop].
  eexists _, _, _. split; [exact Hrun |]. split; [exact Hloop |]. split.
  - apply batch_all_returned.
  - apply batch_all_raised.
Qed.

Lemma batch_lists_follow_edits_witness :
  (exists success failed evs,
     rename_loop env_ok guild0 the_bot alice (lit "x")
                 (many_targets env_ok guild0) [] [] (push world0 [Defer])
     = (inr (success, failed), push (push world0 [Defer]) evs)
     /\ success = [lit "bob"; lit "dave"; lit "erin"]
     /\ failed
        = [(lit "alice", REASON_OWNER); (lit "carol", REASON_HIERARCHY)])
  /\ (exists success failed evs,
        rename_loop env_denied guild0 the_bot alice (lit "x")
                    (many_targets env_denied guild0) [] [] (push world0 [Defer])
        = (inr (success, failed), push (push world0 [Defer]) evs)
        /\ success = [] /\ length failed = 5%nat).
Proof.
  split.
  - destruct (batch_lists_follow_edits env_ok (in_guild alice guild0) (lit "x")
                None true guild0 the_bot (many_targets env_ok guild0) world0)
      as (success & failed & evs & _ & Hloop & Hok & _).
    + repeat split; reflexivity.
    + exists success, failed, evs. split; [exact Hloop |].
      destruct Hok as [-> ->]; [reflexivity |]. split; reflexivity.
  - destruct (batch_lists_follow_edits env_denied (in_guild alice guild0)
                (lit "x") None true guild0 the_bot
                (many_targets env_denied guild0) world0)
      as (success & failed & evs & _ & Hloop & _ & Hno).
    + repeat split; reflexivity.
    + exists success, failed, evs. split; [exact Hloop |].
      apply Hno. intros j id. now exists Forbidden.
Defined.

(** X15.  Every entry of [failed] carries one of four reasons: the owner
    text, the role-hierarchy text, "Forbidden", or "Error: " followed by
    the exception's text. *)
Theorem failed_reasons_known (E : Env) (i : Interaction) (nickname : pystr)
    (member : option Member) (change_many : bool) (g : Guild)
    (bot_member : Member) (targets : list Member) (w : world) :
  reaches_batch E i member change_many g bot_member targets ->
  exists success failed evs,
    changenick E i nickname member change_many w
    = (inr tt, push w ([Defer] ++ evs
                       ++ [Followup (summary (success, failed)) false]))
    /\ rename_loop E g bot_member (user i) nickname targets [] []
                   (push w [Defer])
       = (inr (success, failed), push (push w [Defer]) evs)
    /\ Forall (fun f =>
                 snd f = lit "Server owner (cannot change)"
                 \/ snd f = lit "Role is equal or higher than bot"
                 \/ snd f = lit "Forbidden"
                 \/ exists detail, snd f = lit "Error: " ++ detail) failed.
Proof.
  intros Hreach.
  destruct (changenick_report E i nickname member change_many g bot_member
                              targets w Hreach) as [Hrun Hloop].
  eexists _, _, _. split; [exact Hrun |]. split; [exact Hloop |].
  apply batch_failed_reasons.
Qed.

Lemma failed_reasons_known_witness :
  exists success failed evs,
    rename_loop env0 guild0 the_bot alice (lit "x") (many_targets env0 guild0)
                [] [] (push world0 [Defer])
    = (inr (success, failed), push (push world0 [Defer]) evs)
    /\ List.map snd failed
       = [lit "Server owner (cannot change)";
          lit "Role is equal or higher than bot";
          lit "Forbidden"; lit "Error: HTTP 500"].
Proof.
  destruct (failed_reasons_known env0 (in_guild alice guild0) (lit "x") None true
              guild0 the_bot (many_targets env0 guild0) world0)
    as (success & failed & evs & _ & Hloop & _).
  - repeat split; reflexivity.
  - exists success, failed, evs. split; [exact Hloop |].
    vm_compute in Hloop. injection Hloop as _ <- _. reflexivity.
Defined.

Lemma in_firstn_in {A} (n : nat) (l : list A) (x : A) :
  In x (firstn n l) -> In x l.
Proof.
  intros Hin. rewrite <- (firstn_skipn n l). apply in_or_app. now left.
Qed.

(** X16.  "Change many" never targets a bot, nor the bot itself, nor anyone
    who is not a member of the guild; and one invocation makes at most 50
    [edit] calls. *)
Theorem change_many_spares_bots (E : Env) (i : Interaction) (nickname : pystr)
    (member : option Member) (g : Guild) (bot_member : Member) (w : world) :
  reaches_batch E i member true g bot_member (many_targets E g) ->
  (forall m, In m (many_targets E g) ->
     In m (members g) /\ m_bot m = false /\ m_id m <> bot_user_id E)
  /\ (length (edited (trace (snd (changenick E i nickname member true w))))
      <= length (edited (trace w)) + 50)%nat.
Proof.
  intros Hreach. split.
  - intros m Hin. rewrite many_targets_firstn in Hin.
    apply in_firstn_in, filter_In in Hin as [Hin Hel].
    unfold eligible in Hel. apply andb_prop in Hel as [Hbot Hid].
    apply negb_true_iff in Hbot. apply negb_true_iff, Z.eqb_neq in Hid.
    now repeat split.
  - destruct (changenick_accounts E i nickname member true g bot_member
                (many_targets E g) w Hreach)
      as (success & failed & evs & -> & _ & _ & Hed & _).
    cbn [snd push trace]. rewrite !edited_app, !length_app, Hed, length_map.
    simpl. pose proof (filter_length_le (editable g bot_member)
                                        (many_targets E g)) as Hle.
    rewrite many_targets_firstn in Hle at 2. rewrite length_firstn in Hle.
    unfold MAX_CHANGE in Hle. lia.
Qed.

Lemma change_many_spares_bots_witness :
  ~ In the_bot (many_targets env_ok guild0)
  /\ (length (edited (trace (snd (changenick env_ok (in_guild alice guild51)
                                             (lit "x") None true world0))))
      <= 50)%nat.
Proof.
  split.
  - intros Hin.
    destruct (change_many_spares_bots env_ok (in_guild alice guild0) (lit "x")
                None guild0 the_bot world0) as [H _].
    + repeat split; reflexivity.
    + destruct (H the_bot Hin) as (_ & Hbot & _). discriminate.
  - destruct (change_many_spares_bots env_ok (in_guild alice guild51) (lit "x")
                None guild51 the_bot world0) as [_ H].
    + repeat split; reflexivity.
    + exact H.
Defined.

(** X17.  The bot never renames itself: named as the single target, its own
    member fails a hard rule (its top role is not below itself), so no
    [edit] call is made and the report lists it as failed. *)
Theorem bot_never_renames_itself (E : Env) (i : Interaction) (nickname : pystr)
    (g : Guild) (bot_member : Member) (w : world) :
  reaches_batch E i (Some bot_member) false g bot_member [bot_member] ->
  exists reason,
    (reason = REASON_OWNER \/ reason = REASON_HIERARCHY)
    /\ changenick E i nickname (Some bot_member) false w
       = (inr tt,
          push w [Defer;
                  Followup (summary ([], [(display_name bot_member, reason)]))
                           false]).
Proof.
  intros Hreach.
  pose proof (changenick_outcome E i nickname (Some bot_member) false g
                bot_member [bot_member] w Hreach) as Hrun.
  cbv zeta in Hrun. rewrite Hrun.
  cbn [batch_events batch_success batch_failed].
  assert (He : editable g bot_member bot_member = false).
  { unfold editable. rewrite Z.leb_refl. apply andb_false_r. }
  rewrite He, Z.leb_refl.
  destruct (m_id bot_member =? owner_id g).
  - exists REASON_OWNER. split; [now left | reflexivity].
  - exists REASON_HIERARCHY. split; [now right | reflexivity].
Qed.

Lemma bot_never_renames_itself_witness :
  edited (trace (snd (changenick env_ok (in_guild alice guild0) (lit "x")
                                 (Some the_bot) false world0))) = [].
Proof.
  destruct (bot_never_renames_itself env_ok (in_guild alice guild0) (lit "x")
              guild0 the_bot world0) as (reason & _ & ->).
  - repeat split; reflexivity.
  - reflexivity.
Defined.

(** X18.  Without "change many" and without a member, a run that passed the
    three checks defers first and then answers with the ephemeral
    "You must specify a member" follow-up; no [edit] is attempted. *)
Theorem changenick_needs_member (E : Env) (i : Interaction) (nickname : pystr)
    (g : Guild) (bot_member : Member) (w : world) :
  guild i = Some g ->
  (manage_nicknames (user i) || (m_id (user i) =? owner_id g)) = true ->
  get_member g (bot_user_id E) = Some bot_member ->
  manage_nicknames bot_member = true ->
  changenick E i nickname None false w
  = (inr tt, push w [Defer; Followup MSG_NEED_MEMBER true])
  /\ edited (trace (snd (changenick E i nickname None false w)))
     = edited (trace w).
Proof.
  intros Hg Hperm Hbot Hbotperm.
  assert (Hrun : changenick E i nickname None false w
                 = (inr tt, push w [Defer; Followup MSG_NEED_MEMBER true])).
  { unfold changenick. rewrite Hg, Hperm, Hbot, Hbotperm. cbn [negb].
    cbv beta iota zeta. unfold mbind, M_bind, followup, emit. cbv beta iota.
    now rewrite push_push. }
  rewrite Hrun. split; [reflexivity |]. cbn [snd push trace].
  rewrite edited_app. simpl. now rewrite app_nil_r.
Qed.

Lemma changenick_needs_member_witness :
  trace (snd (changenick env_ok (in_guild alice guild0) (lit "x") None false
                         world0))
  = [Defer; Followup MSG_NEED_MEMBER true].
Proof.
  destruct (changenick_needs_member env_ok (in_guild alice guild0) (lit "x")
              guild0 the_bot world0 eq_refl eq_refl eq_refl eq_refl) as [-> _].
  reflexivity.
Defined.

(** X19.  The report is cut without notice: it shows the two counts, the
    first 20 names of [success] and the first 40 entries of [failed], and
    nothing of what lies beyond.  Two outcomes of the same sizes that agree
    on those first entries give the same text. *)
Theorem summary_truncates (success success' : list pystr)
    (failed failed' : list (pystr * pystr)) :
  length success = length success' ->
  firstn 20 success = firstn 20 success' ->
  length failed = length failed' ->
  firstn 40 failed = firstn 40 failed' ->
  summary (success, failed) = summary (success', failed').
Proof.
  intros Hls Hs Hlf Hf. unfold summary. rewrite Hls, Hlf, Hs, Hf.
  destruct success, success'; try discriminate;
    destruct failed, failed'; try discriminate; reflexivity.
Qed.

Lemma summary_truncates_witness :
  summary (repeat (lit "a") 20 ++ repeat (lit "b") 5, [])
  = summary (repeat (lit "a") 20 ++ repeat (lit "c") 5, []).
Proof.
  apply summary_truncates; reflexivity.
Defined.

(** ** The error log *)

Lemma join_empty_sep (parts : list pystr) : join [] parts = concat parts.
Proof.
  induction parts as [| p [| q parts] IH]; [reflexivity | |].
  - simpl. now rewrite app_nil_r.
  - change (join [] (p :: q :: parts)) with (p ++ [] ++ join [] (q :: parts)).
    rewrite IH. reflexivity.
Qed.

Lemma run_hook_effect (accepts : pystr -> bool) (c : hook_call) (s : io) :
  default [] (errors_log (run_hook accepts c s))
  = default [] (errors_log s) ++ log_entry accepts c
  /\ (is_Some (errors_log s) -> is_Some (errors_log (run_hook accepts c s)))
  /\ default_hook_calls (run_hook accepts c s)
     = (default_hook_calls s + if is_interrupt c then 1 else 0)%nat.
Proof.
  destruct c as [x | context];
    unfold run_hook, is_interrupt, log_entry, log_uncaught_exceptions,
      handle_async_exception.
  - destruct (is_keyboard_interrupt x);
      cbn [errors_log stdout default_hook_calls].
    + rewrite app_nil_r. repeat split; [tauto | lia].
    + unfold append_log. cbn [write_all]. rewrite join_empty_sep.
      destruct (utf8_encodable (concat (formatted x)));
        [change (utf8_encodable [10%N; 10%N]) with true; cbv iota;
         unfold print; destruct (accepts MSG_UNCAUGHT) |];
        cbn [fst errors_log default_hook_calls default];
        rewrite <- ?app_assoc, ?app_nil_r; repeat split; eauto; lia.
  - cbv zeta. unfold print.
    destruct (accepts (lit "Caught asyncio exception: "
                       ++ fmt_opt (context_msg context)));
      cbn [andb]; [| rewrite app_nil_r; repeat split; [tauto | lia]].
    unfold append_log. cbn [write_all errors_log].
    destruct (utf8_encodable
                (lit "Asyncio exception: " ++ fmt_opt (context_msg context)
                 ++ [10%N; 10%N]));
      cbn [fst errors_log default_hook_calls default];
      rewrite ?app_nil_r; repeat split; eauto; lia.
Qed.

(** X20.  [errors.log] is append-only.  Over any sequence of calls of the
    two hooks, and whatever [sys.stdout] accepts, the log ends up as what
    it held before followed by the entries of the calls, in order: the
    formatted traceback and a blank line for an uncaught exception,
    "Asyncio exception: " with the exception (or, when the context has
    none, the message) and a blank line for an event-loop error.  A call
    adds nothing when it is a keyboard interrupt, which goes to the
    interpreter's own hook instead, when its text cannot be encoded as
    UTF-8, or when the [print] that precedes the write of an event-loop
    error is refused.  A log that exists is never removed. *)
Theorem error_log_append_only (accepts : pystr -> bool) (cs : list hook_call)
    (s : io) :
  let s' := run_hooks accepts cs s in
  default [] (errors_log s')
  = default [] (errors_log s) ++ concat (List.map (log_entry accepts) cs)
  /\ (is_Some (errors_log s) -> is_Some (errors_log s'))
  /\ default_hook_calls s'
     = (default_hook_calls s + length (List.filter is_interrupt cs))%nat.
Proof.
  cbv zeta. revert s. induction cs as [| c cs IH]; intros s.
  - simpl. rewrite app_nil_r. repeat split; [tauto | lia].
  - change (run_hooks accepts (c :: cs) s)
      with (run_hooks accepts cs (run_hook accepts c s)).
    destruct (IH (run_hook accepts c s)) as (Hlog & Hsome & Hcalls).
    destruct (run_hook_effect accepts c s) as (Hlog1 & Hsome1 & Hcalls1).
    rewrite Hlog, Hlog1, Hcalls, Hcalls1.
    cbn [List.map concat List.filter].
    split; [now rewrite <- app_assoc |]. split; [tauto |].
    destruct (is_interrupt c); cbn [length]; lia.
Qed.

Lemma error_log_append_only_witness :
  let calls :=
    [Uncaught {| is_keyboard_interrupt := true; formatted := [lit "^C"] |};
     AsyncError {[ "message"%string := lit "boom" ]};
     Uncaught {| is_keyboard_interrupt := false;
                 formatted := [lit "Traceback"; [55357%N]] |};
     Uncaught {| is_keyboard_interrupt := false;
                 formatted := [lit "Traceback"; lit ": ValueError"] |}] in
  let s' := run_hooks (fun _ => true) calls io0 in
  default [] (errors_log s')
  = lit "Asyncio exception: boom" ++ [10%N; 10%N]
    ++ lit "Traceback: ValueError" ++ [10%N; 10%N]
  /\ default_hook_calls s' = 1%nat.
Proof.
  intros calls s'.
  destruct (error_log_append_only (fun _ => true) calls io0)
    as (Hlog & _ & Hcalls).
  split; [exact Hlog | exact Hcalls].
Defined.
